(** * targer: span-level F1 evaluation and batched prediction

    A shallow embedding of [src/classes/evaluator.py] and
    [src/models/tagger_birnn_crf.py].

    Python integers are [Z].  Python's true division [a / b] on integers
    raises [ZeroDivisionError] when [b] is zero and otherwise yields the
    quotient.  The rates of the evaluator are modelled twice: as exact
    rationals ([Q], the rounding of the 64-bit floating point results
    abstracted away), which is enough for what depends on the counters
    only, and as IEEE 754 binary64 numbers ([spec_float] with 53 bits of
    precision), which are the doubles the code returns.
    Exceptions are explicit: every fallible function returns a [result].
    The scores of the CRF layer are real numbers ([R]). *)

From Stdlib Require Import List ZArith QArith Qfield Lia Bool Arith.
From Stdlib Require Import Ascii String.
From Stdlib Require Import Reals Lra Permutation Sorted.
From Stdlib Require Import SpecFloat.
Import ListNotations.

Set Implicit Arguments.
Close Scope Q_scope.

(** ** Python exceptions and the error monad *)

Inductive exn : Type :=
| ZeroDivisionError
| IndexError
| ValueError
| ShapeMismatch
| EmptyBatch
| OSError.

Inductive result (A : Type) : Type :=
| Ok (a : A)
| Raise (e : exn).

Arguments Ok {A} a.
Arguments Raise {A} e.

Definition bind {A B : Type} (m : result A) (k : A -> result B) : result B :=
  match m with
  | Ok a => k a
  | Raise e => Raise e
  end.

Declare Scope py_scope.
Delimit Scope py_scope with py.
Notation "x <- m ;; k" := (bind m (fun x => k))
  (at level 61, m at next level, right associativity) : py_scope.
Open Scope py_scope.

(** [a / b] on Python integers. *)
Definition truediv (a b : Z) : result Q :=
  if (b =? 0)%Z then Raise ZeroDivisionError
  else Ok (inject_Z a / inject_Z b)%Q.

(** ** classes/evaluator.py *)

Module Evaluator.

Section F1.

(** [TagComponent] and its method [is_equal] live in
    [classes/tag_component.py]; the evaluator only calls
    [self.is_equal(other, match_alpha_ratio)], so both are parameters. *)
Variable TagComponent : Type.
Variable Ratio : Type.
Variable is_equal : TagComponent -> TagComponent -> Ratio -> bool.

Record counters : Type := Counters { TP : Z; FN : Z; FP : Z }.

Section Loops.
Variable match_alpha_ratio : Ratio.

(** The inner loops (lines 29-33 and 39-43): scan [candidates] in order,
    set [found] and [break] at the first [c] with
    [c.is_equal(tc, match_alpha_ratio)]. *)
Fixpoint found_in (candidates : list TagComponent) (tc : TagComponent) : bool :=
  match candidates with
  | [] => false
  | c :: rest =>
      if is_equal c tc match_alpha_ratio then true else found_in rest tc
  end.

(** Lines 28-37: one pass over the gold spans of a sequence. *)
Definition count_targets (targets outputs : list TagComponent)
           (c : counters) : counters :=
  fold_left
    (fun c target_tc =>
       if found_in outputs target_tc
       then Counters (TP c + 1) (FN c) (FP c)
       else Counters (TP c) (FN c + 1) (FP c))
    targets c.

(** Lines 38-45: one pass over the predicted spans of a sequence. *)
Definition count_outputs (targets outputs : list TagComponent)
           (c : counters) : counters :=
  fold_left
    (fun c output_tc =>
       if negb (found_in targets output_tc)
       then Counters (TP c) (FN c) (FP c + 1)
       else c)
    outputs c.

(** Lines 26-45: the loop over [zip(targets, outputs)]. *)
Definition count_sequences
           (targets_tag_components_sequences
              outputs_tag_components_sequences : list (list TagComponent))
  : counters :=
  fold_left
    (fun c pair =>
       count_outputs (fst pair) (snd pair)
         (count_targets (fst pair) (snd pair) c))
    (combine targets_tag_components_sequences
             outputs_tag_components_sequences)
    (Counters 0 0 0).

End Loops.

(** Lines 46-48: the three rates, in the order the source computes them. *)
Definition rates (TP FP FN : Z) : result (Q * Q * Q) :=
  p <- truediv TP (Z.max (TP + FP) 1) ;;
  let Precision := (p * 100)%Q in
  r <- truediv TP (Z.max (TP + FN) 1) ;;
  let Recall := (r * 100)%Q in
  f <- truediv (2 * TP) (Z.max (2 * TP + FP + FN) 1) ;;
  let F1 := (f * 100)%Q in
  Ok (F1, Precision, Recall).

Definition get_f1_from_components_sequences
           (targets_tag_components_sequences
              outputs_tag_components_sequences : list (list TagComponent))
           (match_alpha_ratio : Ratio)
  : result (Q * Q * Q * (Z * Z * Z)) :=
  let c := count_sequences match_alpha_ratio
             targets_tag_components_sequences
             outputs_tag_components_sequences in
  triple <- rates (TP c) (FP c) (FN c) ;;
  let '(F1, Precision, Recall) := triple in
  Ok (F1, Precision, Recall, (TP c, FP c, FN c)).

(** *** The declarative reading of the matching rule

    These definitions follow the specification's wording: a gold span
    is a true positive when some predicted span of the same sequence
    [is_equal]s it, a false negative otherwise; a predicted span is a
    false positive when no gold span of the same sequence [is_equal]s it.
    Every test ranges over the whole list on the other side. *)
Section Declarative.
Variable r : Ratio.

Definition gold_is_matched (outputs : list TagComponent)
           (g : TagComponent) : bool :=
  existsb (fun p => is_equal p g r) outputs.

Definition predicted_is_matched (targets : list TagComponent)
           (p : TagComponent) : bool :=
  existsb (fun g => is_equal g p r) targets.

Definition count_if {A : Type} (f : A -> bool) (l : list A) : Z :=
  Z.of_nat (List.length (filter f l)).

Fixpoint spec_TP (gold pred : list (list TagComponent)) : Z :=
  match gold, pred with
  | g :: gold', p :: pred' =>
      count_if (gold_is_matched p) g + spec_TP gold' pred'
  | _, _ => 0
  end.

Fixpoint spec_FN (gold pred : list (list TagComponent)) : Z :=
  match gold, pred with
  | g :: gold', p :: pred' =>
      count_if (fun x => negb (gold_is_matched p x)) g + spec_FN gold' pred'
  | _, _ => 0
  end.

Fixpoint spec_FP (gold pred : list (list TagComponent)) : Z :=
  match gold, pred with
  | g :: gold', p :: pred' =>
      count_if (fun x => negb (predicted_is_matched g x)) p
      + spec_FP gold' pred'
  | _, _ => 0
  end.
End Declarative.

End F1.

End Evaluator.

(** Spans compared by exact equality of their number, whatever the ratio. *)
Definition exact_match (a b : nat) (_ : unit) : bool := Nat.eqb a b.

(** *** The rates as doubles (lines 46-49)

    A Python [float] is an IEEE 754 binary64 number.  [int / int] is the
    quotient of the two integers rounded to the nearest double, ties to
    even, which for integers of magnitude at most 2^53 (they are doubles
    themselves) is the IEEE division of the two converted operands;
    [float * int] converts the integer and multiplies, rounding again. *)

Definition double : Type := spec_float.

(** [float(z)]: the double nearest to [z]. *)
Definition double_of_Z (z : Z) : double := binary_normalize 53 1024 z 0 false.

Definition double_div (x y : double) : double := SFdiv 53 1024 x y.

Definition double_mul (x y : double) : double := SFmul 53 1024 x y.

(** The rational a finite double stands for. *)
Definition double_value (x : double) : option Q :=
  match x with
  | S754_zero _ => Some 0%Q
  | S754_finite s m e =>
      Some ((if s then - inject_Z (Zpos m) else inject_Z (Zpos m))
            * Qpower 2 e)%Q
  | S754_infinity _ | S754_nan => None
  end.

Definition truediv_double (a b : Z) : result double :=
  if (b =? 0)%Z then Raise ZeroDivisionError
  else Ok (double_div (double_of_Z a) (double_of_Z b)).

(** Lines 46-48, in the order and with the operations of the source:
    [(TP / max(TP + FP, 1))*100] and so on. *)
Definition rates_double (TP FP FN : Z) : result (double * double * double) :=
  p <- truediv_double TP (Z.max (TP + FP) 1) ;;
  let Precision := double_mul p (double_of_Z 100) in
  r <- truediv_double TP (Z.max (TP + FN) 1) ;;
  let Recall := double_mul r (double_of_Z 100) in
  f <- truediv_double (2 * TP) (Z.max (2 * TP + FP + FN) 1) ;;
  let F1 := double_mul f (double_of_Z 100) in
  Ok (F1, Precision, Recall).

Section F1Double.
Variable TagComponent : Type.
Variable Ratio : Type.
Variable is_equal : TagComponent -> TagComponent -> Ratio -> bool.

(** Lines 25-49 with the rates as the doubles the code returns; the loop
    is [Evaluator.count_sequences]. *)
Definition get_f1_from_components_sequences_double
           (targets_tag_components_sequences
              outputs_tag_components_sequences : list (list TagComponent))
           (match_alpha_ratio : Ratio)
  : result (double * double * double * (Z * Z * Z)) :=
  let c := Evaluator.count_sequences is_equal match_alpha_ratio
             targets_tag_components_sequences
             outputs_tag_components_sequences in
  triple <-
    rates_double (Evaluator.TP c) (Evaluator.FP c) (Evaluator.FN c) ;;
  let '(F1, Precision, Recall) := triple in
  Ok (F1, Precision, Recall,
      (Evaluator.TP c, Evaluator.FP c, Evaluator.FN c)).

End F1Double.

(** *** write_text_report (lines 51-57)

    A Python [str] is a list of characters.  [replace] and [split] are the
    built-in [str.replace] and [str.split]: both scan from the left and
    take the leftmost occurrences, which never overlap.  The scan is
    written with a counter of characters still to be skipped after an
    occurrence was found, so that the recursion is structural. *)

Definition text : Type := list ascii.

Definition str (s : string) : text := list_ascii_of_string s.

Definition newline : ascii := ascii_of_nat 10.

Fixpoint startswith (prefix s : text) : bool :=
  match prefix, s with
  | [], _ => true
  | _ :: _, [] => false
  | a :: prefix', b :: s' => Ascii.eqb a b && startswith prefix' s'
  end.

Fixpoint replace_from (old new : text) (skip : nat) (s : text) : text :=
  match s with
  | [] => []
  | c :: s' =>
      match skip with
      | S k => replace_from old new k s'
      | O =>
          if startswith old s
          then new ++ replace_from old new (List.length old - 1) s'
          else c :: replace_from old new 0 s'
      end
  end.

(** [s.replace(old, new)]; with an empty [old], Python puts [new] before
    every character and at the end. *)
Definition replace (old new s : text) : text :=
  match old with
  | [] => new ++ flat_map (fun c => c :: new) s
  | _ :: _ => replace_from old new 0 s
  end.

Definition cons_head (c : ascii) (pieces : list text) : list text :=
  match pieces with
  | [] => [[c]]
  | p :: ps => (c :: p) :: ps
  end.

Fixpoint split_from (sep : text) (skip : nat) (s : text) : list text :=
  match s with
  | [] => [[]]
  | c :: s' =>
      match skip with
      | S k => split_from sep k s'
      | O =>
          if startswith sep s
          then [] :: split_from sep (List.length sep - 1) s'
          else cons_head c (split_from sep 0 s')
      end
  end.

(** [s.split(sep)]; an empty separator raises [ValueError]. *)
Definition split (sep s : text) : result (list text) :=
  match sep with
  | [] => Raise ValueError
  | _ :: _ => Ok (split_from sep 0 s)
  end.

(** [sep.join(pieces)]. *)
Fixpoint join (sep : text) (pieces : list text) : text :=
  match pieces with
  | [] => []
  | [p] => p
  | p :: rest => p ++ sep ++ join sep rest
  end.

(** Whether [old] occurs somewhere in [s]. *)
Fixpoint occurs (old s : text) : bool :=
  startswith old s ||
  match s with
  | [] => false
  | _ :: s' => occurs old s'
  end.

(** The file system as [write_text_report] meets it: what the file under a
    name holds, and whether [open(name, mode='w')] succeeds for a name
    (its directory exists, it is not a directory itself, it may be
    written). *)
Record filesystem : Type := {
  content : text -> option text;
  can_open_w : text -> bool
}.

Definition text_eqb (a b : text) : bool :=
  if list_eq_dec Ascii.ascii_dec a b then true else false.

(** [open(fn, mode='w')] creates the file or truncates it, or raises
    [OSError] when the file cannot be opened for writing. *)
Definition open_w (fn : text) (fs : filesystem) : result filesystem :=
  if can_open_w fs fn
  then Ok {| content := fun name =>
                          if text_eqb name fn then Some [] else content fs name;
             can_open_w := can_open_w fs |}
  else Raise OSError.

(** [text_file.write(data)] appends to the file opened under [fn]. *)
Definition file_write (fn data : text) (fs : filesystem) : filesystem :=
  {| content := fun name =>
                  if text_eqb name fn
                  then match content fs fn with
                       | Some held => Some (held ++ data)
                       | None => None
                       end
                  else content fs name;
     can_open_w := can_open_w fs |}.

(** A file system without files, in which every name can be opened for
    writing. *)
Definition no_files : filesystem :=
  {| content := fun _ => None; can_open_w := fun _ => true |}.

(** A file system in which no file can be opened for writing. *)
Definition read_only : filesystem :=
  {| content := fun _ => None; can_open_w := fun _ => false |}.

Module Report.

(** [str_args] is [str(args)]. *)
Definition write_text_report (fn : text) (str_args : text)
           (scores_report_str : text) (fs : filesystem)
  : result filesystem :=
  text_file <- open_w fn fs ;;
  hyper_params <-
    split (str ", ")
      (replace (str ")") (str "")
         (replace (str "Namespace(") (str "") str_args)) ;;
  let text_file :=
    fold_left
      (fun text_file hyper_param =>
         file_write fn (hyper_param ++ [newline]) text_file)
      hyper_params text_file in
  let text_file := file_write fn scores_report_str text_file in
  Ok text_file.

(** [str(args)] for an [argparse.Namespace] whose attributes print as
    [entries] (each one the text [key=repr(value)]). *)
Definition namespace_str (entries : list text) : text :=
  str "Namespace(" ++ join (str ", ") entries ++ str ")".

(** One line per entry, then the scores: the report the specification
    describes. *)
Definition report_of (entries : list text) (scores_report_str : text)
  : text :=
  flat_map (fun entry => entry ++ [newline]) entries ++ scores_report_str.

(** An entry that can be written as one line and read back: it holds no
    closing parenthesis, no separator [", "] and no newline. *)
Definition plain_entry (e : text) : bool :=
  negb (occurs (str ")") e) && negb (occurs (str ", ") e)
  && negb (occurs [newline] e).

End Report.

(** ** classes/utils.py and classes/datasets_bank.py *)

Module Utils.

Section Bucketing.
Variable A : Type.

(** Modelled from the spec: [argsort_sequences_by_lens] of
    [classes/utils.py] is missing.  Following section 4.1 it returns the
    permutation [sort_idx] that orders the sequences by non-increasing
    length, equal lengths keeping their input order, together with the
    inverse permutation [restore_idx].  The stable sort is written as an
    insertion sort: an index travels past the indices of strictly longer
    sequences only. *)
Fixpoint insert_by_len (lens : list nat) (i : nat) (sorted : list nat)
  : list nat :=
  match sorted with
  | [] => [i]
  | j :: rest =>
      if nth i lens 0 <? nth j lens 0
      then j :: insert_by_len lens i rest
      else i :: j :: rest
  end.

Definition sort_by_len (lens : list nat) (indices : list nat) : list nat :=
  fold_right (insert_by_len lens) [] indices.

(** Position of the first [x] in [l] ([length l] when there is none). *)
Fixpoint index_of (x : nat) (l : list nat) : nat :=
  match l with
  | [] => 0
  | y :: rest => if x =? y then 0 else S (index_of x rest)
  end.

Definition inverse_permutation (p : list nat) : list nat :=
  map (fun j => index_of j p) (seq 0 (List.length p)).

(** Index [i] may stand before index [j]: its sequence is not shorter. *)
Definition longer_first (lens : list nat) (i j : nat) : Prop :=
  nth j lens 0 <= nth i lens 0.

Definition argsort_sequences_by_lens (list_in : list (list A))
  : list nat * list nat :=
  let sort_indices :=
    sort_by_len (map (@List.length A) list_in)
                (seq 0 (List.length list_in)) in
  (sort_indices, inverse_permutation sort_indices).
End Bucketing.

Section Gather.
Variable B : Type.

(** Modelled from the spec: [DatasetsBank.get_sequences_by_indices] of
    [classes/datasets_bank.py] is missing.  It orders [sequences] by
    [indices] ("sequences ordered by [sort_idx]"): the list of
    [sequences[i]] for [i] in [indices]; indexing past the end raises
    [IndexError]. *)
Fixpoint get_sequences_by_indices (sequences : list B) (indices : list nat)
  : result (list B) :=
  match indices with
  | [] => Ok []
  | i :: rest =>
      match nth_error sequences i with
      | None => Raise IndexError
      | Some x =>
          xs <- get_sequences_by_indices sequences rest ;;
          Ok (x :: xs)
      end
  end.
End Gather.

End Utils.

(** ** models/tagger_birnn_crf.py *)

Module Tagger.

(** *** Construction (lines 22-48) *)

Inductive birnn_layer : Type :=
| LayerBiGRU (input_dim hidden_dim gpu : Z)
| LayerBiLSTM (input_dim hidden_dim gpu : Z).

Record TaggerBiRNNCRF : Type := {
  class_num : Z;
  batch_size : Z;
  rnn_hidden_dim : Z;
  rnn_type : string;
  gpu : Z;
  birnn : birnn_layer;
  lin_layer_out_features : Z;
  crf_states_num : Z;
  crf_sos_idx : Z
}.

(** Lines 34-43.  [rnn_type == 'GRU'] is exact string equality. *)
Definition make_birnn_layer (rnn_type : string)
           (input_dim hidden_dim gpu : Z) : result birnn_layer :=
  if String.eqb rnn_type "GRU" then Ok (LayerBiGRU input_dim hidden_dim gpu)
  else if String.eqb rnn_type "LSTM"
       then Ok (LayerBiLSTM input_dim hidden_dim gpu)
       else Raise ValueError.

(** [word_embeddings] is the outcome of the statements before the branch
    (the base class constructor, [LayerWordEmbeddings] and [Dropout], all
    outside this file): the [output_dim] of the embedding layer, or the
    exception one of them raised. *)
Definition init (word_embeddings : result Z)
           (class_num batch_size rnn_hidden_dim : Z)
           (rnn_type : string) (gpu : Z) : result TaggerBiRNNCRF :=
  output_dim <- word_embeddings ;;
  birnn_layer <- make_birnn_layer rnn_type output_dim rnn_hidden_dim gpu ;;
  Ok {| class_num := class_num;
        batch_size := batch_size;
        rnn_hidden_dim := rnn_hidden_dim;
        rnn_type := rnn_type;
        gpu := gpu;
        birnn := birnn_layer;
        lin_layer_out_features := class_num + 2;
        crf_states_num := class_num + 2;
        crf_sos_idx := class_num + 1 |}.

(** *** The CRF layer and the training loss (lines 57-64) *)

Section Loss.
(** Number of states ([class_num + 2]), index of the virtual start tag,
    transition score from state [i] to state [j], and the running score
    vector before position 0. *)
Variable states_num : nat.
Variable sos_idx : nat.
Variable transition : nat -> nat -> R.
Variable initial_score : nat -> R.

(** The features of one position: a score per state. *)
Definition feature_vector : Type := nat -> R.

Definition sum_R (l : list R) : R := fold_right Rplus 0%R l.

Definition log_sum_exp (score : nat -> R) : R :=
  ln (sum_R (map (fun i => exp (score i)) (seq 0 states_num))).

(** Modelled from the spec: [LayerCRF.numerator] of [layers/layer_crf.py]
    is missing.  Section 4.3, [gold_path_score]: over the valid
    positions only, the emission score of the gold tag plus the
    transition score from the gold tag of the previous valid position
    ([prev], the start tag at first) to the current gold tag. *)
Fixpoint gold_path_score (prev : nat) (features : list feature_vector)
         (gold_tags : list nat) (mask : list bool) : R :=
  match features, gold_tags, mask with
  | f :: features', g :: gold_tags', m :: mask' =>
      if m
      then (f g + transition prev g
            + gold_path_score g features' gold_tags' mask')%R
      else gold_path_score prev features' gold_tags' mask'
  | _, _, _ => 0%R
  end.

(** Modelled from the spec: [LayerCRF.denominator] of
    [layers/layer_crf.py] is missing.  Section 4.3, [log_partition]: a
    running score vector over the states, updated position by position
    with the log-sum-exp over the previous states of (running score +
    transition score + current emission score); a position beyond the
    real length leaves the running score unchanged; the result is the
    log-sum-exp of the final running score. *)
Fixpoint forward (score : nat -> R) (features : list feature_vector)
         (mask : list bool) : nat -> R :=
  match features, mask with
  | f :: features', m :: mask' =>
      let updated := fun j =>
        log_sum_exp (fun i => (score i + transition i j + f j)%R) in
      forward (fun j => if m then updated j else score j) features' mask'
  | _, _ => score
  end.

Definition log_partition (features : list feature_vector)
           (mask : list bool) : R :=
  log_sum_exp (forward initial_score features mask).

(** Modelled from the spec: the checks of [LayerCRF] are missing.  Section
    4.3, failure modes: the batch and position dimensions of the tensors
    must agree ([ShapeMismatch]), and a batch holds at least one sequence
    ([EmptyBatch]). *)
Fixpoint same_shape {X Y : Type} (a : list (list X)) (b : list (list Y))
  : bool :=
  match a, b with
  | [], [] => true
  | x :: a', y :: b' =>
      (List.length x =? List.length y) && same_shape a' b'
  | _, _ => false
  end.

Definition check_batch {X Y : Type} (a : list (list X)) (b : list (list Y))
  : result unit :=
  if negb (same_shape a b) then Raise ShapeMismatch
  else match a with
       | [] => Raise EmptyBatch
       | _ :: _ => Ok tt
       end.

Fixpoint map3 {X Y Z W : Type} (f : X -> Y -> Z -> W)
         (a : list X) (b : list Y) (c : list Z) : list W :=
  match a, b, c with
  | x :: a', y :: b', z :: c' => f x y z :: map3 f a' b' c'
  | _, _, _ => []
  end.

Fixpoint map2 {X Y W : Type} (f : X -> Y -> W)
         (a : list X) (b : list Y) : list W :=
  match a, b with
  | x :: a', y :: b' => f x y :: map2 f a' b'
  | _, _ => []
  end.

(** The two entry points of the layer, one score per sequence of the
    batch. *)
Definition numerator (features : list (list feature_vector))
           (states : list (list nat)) (mask : list (list bool))
  : result (list R) :=
  _ <- check_batch features states ;;
  _ <- check_batch features mask ;;
  Ok (map3 (gold_path_score sos_idx) features states mask).

Definition denominator (features : list (list feature_vector))
           (mask : list (list bool)) : result (list R) :=
  _ <- check_batch features mask ;;
  Ok (map2 log_partition features mask).

(** [torch.mean] of a vector. *)
Definition mean (v : list R) : R := (sum_R v / INR (List.length v))%R.

(** Lines 57-64, from the masked features on: [features_rnn] is
    [apply_mask(_forward_birnn(words), mask)] and [targets] is
    [items2tensor(tags)]. *)
Definition get_loss (features_rnn : list (list feature_vector))
           (targets_tensor_train_batch : list (list nat))
           (mask : list (list bool)) : result R :=
  numerator <-
    numerator features_rnn targets_tensor_train_batch mask ;;
  denominator <- denominator features_rnn mask ;;
  let nll_loss := (- mean (map2 Rminus numerator denominator))%R in
  Ok nll_loss.

(** Every gold tag of a valid position is one of the states. *)
Fixpoint tags_in_range (gold_tags : list nat) (mask : list bool) : bool :=
  match gold_tags, mask with
  | g :: gold_tags', m :: mask' =>
      (negb m || (g <? states_num)) && tags_in_range gold_tags' mask'
  | _, _ => true
  end.

End Loss.

(** *** Prediction (lines 66-93) *)

Section Predict.
Variable Word : Type.
Variable Tag : Type.

(** Modelled from the spec: the encoder, [get_mask], [apply_mask] and
    [LayerCRF.decode_viterbi] are missing.  By sections 4.3 and 4.4 the
    mask keeps padded positions from influencing the decoding and the
    decoded length is the real length of the sequence, so a batch is
    decoded sequence by sequence: [decode_sequence] is the best tag index
    path of one word sequence under the current model state.  A batch of
    zero sequences fails with [EmptyBatch] (section 4.3, failure
    modes). *)
Variable decode_sequence : list Word -> list nat.

Definition decode_batch (word_sequences : list (list Word))
  : result (list (list nat)) :=
  match word_sequences with
  | [] => Raise EmptyBatch
  | _ :: _ => Ok (map decode_sequence word_sequences)
  end.

(** Modelled from the spec: [tag_seq_indexer.idx2items] is missing.  In
    the data flow of section 2 the decoded tag indices become tag
    sequences: every index of every sequence is looked up in the indexer's
    table [idx2item]. *)
Variable idx2item : nat -> Tag.

Definition idx2items (idx_sequences : list (list nat)) : list (list Tag) :=
  map (map idx2item) idx_sequences.

(** Lines 66-74.  Lines 70-72 (mask, encoder, Viterbi decoding) are
    outside this file: [decode] stands for them, whatever it returns or
    raises for the sorted batch. *)
Definition predict_idx_from_words_with
           (decode : list (list Word) -> result (list (list nat)))
           (word_sequences : list (list Word))
  : result (list (list nat)) :=
  let '(sort_indices, reverse_sort_indices) :=
    Utils.argsort_sequences_by_lens word_sequences in
  word_sequences <-
    Utils.get_sequences_by_indices word_sequences sort_indices ;;
  output_idx_sequences <- decode word_sequences ;;
  Utils.get_sequences_by_indices output_idx_sequences reverse_sort_indices.

Definition predict_idx_from_words (word_sequences : list (list Word))
  : result (list (list nat)) :=
  predict_idx_from_words_with decode_batch word_sequences.

(** [l[i:j]] with Python's treatment of negative and oversized bounds. *)
Definition clamp_index (len i : Z) : Z :=
  if (i <? 0)%Z then Z.max (i + len) 0 else Z.min i len.

Definition slice {X : Type} (l : list X) (i j : Z) : list X :=
  let len := Z.of_nat (List.length l) in
  let lo := clamp_index len i in
  let hi := clamp_index len j in
  firstn (Z.to_nat (hi - lo)) (skipn (Z.to_nat lo) l).

(** [range(n)] for a Python integer [n]. *)
Definition range (n : Z) : list Z :=
  map Z.of_nat (seq 0 (Z.to_nat n)).

(** [math.floor(a / b)]: the floor of the quotient, which is what the
    floating point division followed by [math.floor] gives as long as
    [a] is below 2^53; a zero divisor raises. *)
Definition floor_div (a b : Z) : result Z :=
  if (b =? 0)%Z then Raise ZeroDivisionError else Ok (a / b)%Z.

(** Lines 76-93; [self_batch_size] is [self.batch_size].  The progress
    line printed per batch is not part of the result. *)
Definition predict_tags_from_words (self_batch_size : Z)
           (word_sequences : list (list Word)) (batch_size : Z)
  : result (list (list Tag)) :=
  let batch_size :=
    if (batch_size =? -1)%Z then self_batch_size else batch_size in
  let len := Z.of_nat (List.length word_sequences) in
  batch_num <- floor_div len batch_size ;;
  fold_left
    (fun acc n =>
       output_tag_sequences <- acc ;;
       let i := (n * batch_size)%Z in
       let j := if (n <? batch_num - 1)%Z
                then ((n + 1) * batch_size)%Z
                else len in
       curr_output_idx <- predict_idx_from_words (slice word_sequences i j) ;;
       let curr_output_tag_sequences := idx2items curr_output_idx in
       Ok (output_tag_sequences ++ curr_output_tag_sequences))
    (range batch_num)
    (Ok []).

(** The batch size the loop works with (lines 77-78). *)
Definition effective_batch_size (self_batch_size batch_size : Z) : Z :=
  if (batch_size =? -1)%Z then self_batch_size else batch_size.

(** The tag sequence predicted for one word sequence. *)
Definition tags_of (word_sequence : list Word) : list Tag :=
  map idx2item (decode_sequence word_sequence).

(** Predicting the whole list in a single call. *)
Definition predict_tags_single_call (word_sequences : list (list Word))
  : result (list (list Tag)) :=
  curr_output_idx <- predict_idx_from_words word_sequences ;;
  Ok (idx2items curr_output_idx).

End Predict.

End Tagger.

(** ** Further functions of the two files *)

Section F1FromWords.
Variable TagItem : Type.
Variable TagComponent : Type.
Variable Ratio : Type.
Variable is_equal : TagComponent -> TagComponent -> Ratio -> bool.

(** [TagComponent.extract_tag_components_sequences] lives in
    [classes/tag_component.py]; it is a parameter. *)
Variable extract_tag_components_sequences :
  list (list TagItem) -> list (list TagComponent).

(** evaluator.py, lines 17-22.  The caller passes [match_alpha_ratio] or
    leaves the default 0.999, here [default_ratio]. *)
Definition get_f1_from_words (default_ratio : Ratio)
           (targets_tag_sequences outputs_tag_sequences : list (list TagItem))
           (match_alpha_ratio : option Ratio)
  : result (Q * Q * Q * (Z * Z * Z)) :=
  let match_alpha_ratio :=
    match match_alpha_ratio with
    | Some ratio => ratio
    | None => default_ratio
    end in
  let targets_tag_components_sequences :=
    extract_tag_components_sequences targets_tag_sequences in
  let outputs_tag_components_sequences :=
    extract_tag_components_sequences outputs_tag_sequences in
  Evaluator.get_f1_from_components_sequences is_equal
    targets_tag_components_sequences
    outputs_tag_components_sequences
    match_alpha_ratio.

End F1FromWords.

Section SubBatches.
Variable Word : Type.

(** tagger_birnn_crf.py, lines 77-88: the slices [word_sequences[i:j]]
    the loop of [predict_tags_from_words] hands to
    [predict_idx_from_words], in the order of the loop. *)
Definition sub_batches (self_batch_size : Z)
           (word_sequences : list (list Word)) (batch_size : Z)
  : result (list (list (list Word))) :=
  let batch_size :=
    if (batch_size =? -1)%Z then self_batch_size else batch_size in
  let len := Z.of_nat (List.length word_sequences) in
  batch_num <- Tagger.floor_div len batch_size ;;
  Ok (map
        (fun n =>
           let i := (n * batch_size)%Z in
           let j := if (n <? batch_num - 1)%Z
                    then ((n + 1) * batch_size)%Z
                    else len in
           Tagger.slice word_sequences i j)
        (Tagger.range batch_num)).

End SubBatches.

Section ScoredSpans.
Variable TagComponent : Type.
Variable Ratio : Type.
Variable is_equal : TagComponent -> TagComponent -> Ratio -> bool.
Variable r : Ratio.

(** The gold and the predicted spans of the sequence pairs that [zip]
    yields. *)
Definition scored_gold (gold pred : list (list TagComponent))
  : list TagComponent :=
  List.concat (map fst (combine gold pred)).

Definition scored_pred (gold pred : list (list TagComponent))
  : list TagComponent :=
  List.concat (map snd (combine gold pred)).

(** No span of a scored pair matches a span of the other side, in either
    direction. *)
Definition nothing_matches (gold pred : list (list TagComponent)) : bool :=
  forallb
    (fun pair =>
       forallb
         (fun g =>
            forallb
              (fun p => negb (is_equal p g r) && negb (is_equal g p r))
              (snd pair))
         (fst pair))
    (combine gold pred).

(** The ratio [get_f1_from_words] works with. *)
Definition ratio_in_use (default_ratio : Ratio)
           (match_alpha_ratio : option Ratio) : Ratio :=
  match match_alpha_ratio with
  | Some ratio => ratio
  | None => default_ratio
  end.

End ScoredSpans.

(** * Properties *)

Unset Implicit Arguments.

(** ** The span matching counters *)

Section EvaluatorFacts.
Import Evaluator.

Variable TagComponent : Type.
Variable Ratio : Type.
Variable is_equal : TagComponent -> TagComponent -> Ratio -> bool.
Variable r : Ratio.

Local Abbreviation found_in := (found_in is_equal r).
Local Abbreviation count_targets := (count_targets is_equal r).
Local Abbreviation count_outputs := (count_outputs is_equal r).
Local Abbreviation count_sequences := (count_sequences is_equal r).
Local Abbreviation gold_is_matched := (gold_is_matched is_equal r).
Local Abbreviation predicted_is_matched := (predicted_is_matched is_equal r).
Local Abbreviation spec_TP := (spec_TP is_equal r).
Local Abbreviation spec_FN := (spec_FN is_equal r).
Local Abbreviation spec_FP := (spec_FP is_equal r).

Local Open Scope Z_scope.

(** The loop with [break] computes an existential test. *)
Lemma found_in_existsb (candidates : list TagComponent) (tc : TagComponent) :
  found_in candidates tc = existsb (fun c => is_equal c tc r) candidates.
Proof.
  induction candidates as [| c rest IH]; simpl; [reflexivity |].
  rewrite IH. destruct (is_equal c tc r); reflexivity.
Qed.

Lemma count_if_cons (A : Type) (f : A -> bool) (x : A) (l : list A) :
  count_if f (x :: l) = (if f x then 1 else 0) + count_if f l.
Proof.
  unfold count_if; cbn [filter]. destruct (f x); cbn [List.length]; lia.
Qed.

Lemma count_if_nonneg (A : Type) (f : A -> bool) (l : list A) :
  0 <= count_if f l.
Proof. unfold count_if; lia. Qed.

Lemma count_if_split (A : Type) (f : A -> bool) (l : list A) :
  count_if f l + count_if (fun x => negb (f x)) l = Z.of_nat (List.length l).
Proof.
  induction l as [| x l IH]; [reflexivity |].
  rewrite !count_if_cons. cbn [List.length]. rewrite Nat2Z.inj_succ.
  destruct (f x); cbn [negb]; lia.
Qed.

Lemma count_if_ext_const (b : bool) (A : Type) (f : A -> bool) (l : list A) :
  (forall x, In x l -> f x = b) ->
  count_if f l = count_if (fun _ => b) l.
Proof.
  intros H. unfold count_if. f_equal. f_equal.
  apply filter_ext_in. exact H.
Qed.

Lemma count_targets_spec (targets outputs : list TagComponent) (c : counters) :
  count_targets targets outputs c =
  Counters (TP c + count_if (gold_is_matched outputs) targets)
           (FN c + count_if (fun g => negb (gold_is_matched outputs g)) targets)
           (FP c).
Proof.
  unfold Evaluator.count_targets.
  revert c; induction targets as [| g targets IH]; intros [tp fn fp].
  - simpl. unfold count_if; simpl. f_equal; lia.
  - cbn [fold_left]. rewrite IH, !count_if_cons, found_in_existsb.
    unfold Evaluator.gold_is_matched.
    destruct (existsb _ outputs); cbn [negb TP FN FP]; f_equal; lia.
Qed.

Lemma count_outputs_spec (targets outputs : list TagComponent) (c : counters) :
  count_outputs targets outputs c =
  Counters (TP c) (FN c)
           (FP c + count_if (fun p => negb (predicted_is_matched targets p))
                            outputs).
Proof.
  unfold Evaluator.count_outputs.
  revert c; induction outputs as [| p outputs IH]; intros [tp fn fp].
  - simpl. unfold count_if; simpl. f_equal; lia.
  - cbn [fold_left]. rewrite IH, !count_if_cons, found_in_existsb.
    unfold Evaluator.predicted_is_matched.
    destruct (existsb _ targets); cbn [negb TP FN FP]; f_equal; lia.
Qed.

(** The outer loop started from arbitrary counters. *)
Lemma count_loop_spec (gold pred : list (list TagComponent)) (c : counters) :
  fold_left
    (fun c pair =>
       count_outputs (fst pair) (snd pair)
         (count_targets (fst pair) (snd pair) c))
    (combine gold pred) c =
  Counters (TP c + spec_TP gold pred)
           (FN c + spec_FN gold pred)
           (FP c + spec_FP gold pred).
Proof.
  revert pred c; induction gold as [| g gold IH]; intros pred [tp fn fp].
  - simpl. f_equal; lia.
  - destruct pred as [| p pred]; [simpl; f_equal; lia |].
    cbn [combine fold_left fst snd].
    rewrite IH, count_outputs_spec, count_targets_spec.
    cbn [TP FN FP Evaluator.spec_TP Evaluator.spec_FN Evaluator.spec_FP].
    f_equal; lia.
Qed.

Lemma count_sequences_spec (gold pred : list (list TagComponent)) :
  count_sequences gold pred =
  Counters (spec_TP gold pred) (spec_FN gold pred) (spec_FP gold pred).
Proof.
  unfold Evaluator.count_sequences. rewrite count_loop_spec. reflexivity.
Qed.

Lemma truediv_guarded (a b : Z) :
  truediv a (Z.max b 1) = Ok (inject_Z a / inject_Z (Z.max b 1))%Q.
Proof.
  unfold truediv.
  destruct (Z.eqb_spec (Z.max b 1) 0) as [E | _]; [lia | reflexivity].
Qed.

Lemma rates_total (tp fp fn : Z) :
  rates tp fp fn =
  Ok ((inject_Z (2 * tp) / inject_Z (Z.max (2 * tp + fp + fn) 1) * 100)%Q,
      (inject_Z tp / inject_Z (Z.max (tp + fp) 1) * 100)%Q,
      (inject_Z tp / inject_Z (Z.max (tp + fn) 1) * 100)%Q).
Proof.
  unfold rates. rewrite !truediv_guarded. reflexivity.
Qed.

Lemma guard_nonzero (d : Z) : ~ (inject_Z (Z.max d 1) == 0)%Q.
Proof.
  unfold Qeq; simpl. lia.
Qed.

(** The function always returns: the counters of the loop and the rates
    derived from them. *)
Lemma get_f1_total (gold pred : list (list TagComponent)) :
  get_f1_from_components_sequences is_equal gold pred r =
  let tp := spec_TP gold pred in
  let fn := spec_FN gold pred in
  let fp := spec_FP gold pred in
  Ok ((inject_Z (2 * tp) / inject_Z (Z.max (2 * tp + fp + fn) 1) * 100)%Q,
      (inject_Z tp / inject_Z (Z.max (tp + fp) 1) * 100)%Q,
      (inject_Z tp / inject_Z (Z.max (tp + fn) 1) * 100)%Q,
      (tp, fp, fn)).
Proof.
  unfold get_f1_from_components_sequences.
  rewrite count_sequences_spec. cbn [TP FN FP].
  rewrite rates_total. reflexivity.
Qed.

(** C2. The counters returned by [get_f1_from_components_sequences] are
    the declarative counts over the zipped sequence pairs: a gold span
    is one TP when some predicted span of its sequence [is_equal]s it
    and one FN otherwise, a predicted span is one FP when no gold span of
    its sequence [is_equal]s it.  No span is consumed by a match: one
    predicted span answers for all [n] copies of a gold span, and one
    gold span covers all [n] copies of a predicted span. *)
Theorem matching_is_non_exclusive (gold pred : list (list TagComponent)) :
  (exists F1 Precision Recall : Q,
      get_f1_from_components_sequences is_equal gold pred r =
      Ok (F1, Precision, Recall,
          (spec_TP gold pred, spec_FP gold pred, spec_FN gold pred)))
  /\ (forall (g p : TagComponent) (n : nat),
         TP (count_sequences [repeat g n] [[p]]) =
         if is_equal p g r then Z.of_nat n else 0)
  /\ (forall (g p : TagComponent) (n : nat),
         FP (count_sequences [[g]] [repeat p n]) =
         if is_equal g p r then 0 else Z.of_nat n).
Proof.
  assert (Hall : forall (b : bool) (x : TagComponent) (n : nat),
             count_if (fun _ : TagComponent => b) (repeat x n) =
             if b then Z.of_nat n else 0).
  { intros b x n. induction n as [| n IH].
    - destruct b; reflexivity.
    - cbn [repeat]. rewrite count_if_cons, IH. destruct b; lia. }
  split; [| split].
  - rewrite get_f1_total. cbv zeta. do 3 eexists. reflexivity.
  - intros g p n. rewrite count_sequences_spec.
    cbn [TP Evaluator.spec_TP].
    unfold Evaluator.gold_is_matched. cbn [existsb].
    rewrite (count_if_ext_const (is_equal p g r)).
    + rewrite Hall. destruct (is_equal p g r); lia.
    + intros x Hx. apply repeat_spec in Hx. subst x.
      apply orb_false_r.
  - intros g p n. rewrite count_sequences_spec.
    cbn [FP Evaluator.spec_FP].
    unfold Evaluator.predicted_is_matched. cbn [existsb].
    rewrite (count_if_ext_const (negb (is_equal g p r))).
    + rewrite Hall. destruct (is_equal g p r); cbn [negb]; lia.
    + intros x Hx. apply repeat_spec in Hx. subst x.
      rewrite orb_false_r. reflexivity.
Qed.

(** The zipped pairs of two corpora are the zipped pairs of their
    prefixes of the common length. *)
Lemma combine_common_prefix (A B : Type) (l : list A) (l' : list B) :
  let m := Nat.min (List.length l) (List.length l') in
  combine (firstn m l) (firstn m l') = combine l l'.
Proof.
  cbv zeta. rewrite <- combine_firstn.
  apply firstn_all2. rewrite length_combine. lia.
Qed.

Lemma combine_ignores_trailing_l (A B : Type) (l extra : list A) (l' : list B) :
  (List.length l' <= List.length l)%nat ->
  combine (l ++ extra) l' = combine l l'.
Proof.
  revert l'; induction l as [| x l IH]; intros [| y l'] Hlen;
    cbn [List.length] in Hlen; try lia.
  - destruct extra; reflexivity.
  - reflexivity.
  - cbn [app combine]. rewrite IH by lia. reflexivity.
Qed.

Lemma combine_ignores_trailing_r (A B : Type) (l : list A) (l' extra : list B) :
  (List.length l <= List.length l')%nat ->
  combine l (l' ++ extra) = combine l l'.
Proof.
  revert l'; induction l as [| x l IH]; intros [| y l'] Hlen;
    cbn [List.length] in Hlen; try lia.
  - reflexivity.
  - reflexivity.
  - cbn [app combine]. rewrite IH by lia. reflexivity.
Qed.

(** C10. Only the first [min(len(gold), len(predicted))] sequence pairs
    are scored: the result is that of the two corpora cut to the common
    length, and whatever sequences trail after the common length in
    either corpus leave TP, FP, FN and the rates unchanged. *)
Theorem only_zipped_pairs_are_scored (gold pred : list (list TagComponent)) :
  let m := Nat.min (List.length gold) (List.length pred) in
  get_f1_from_components_sequences is_equal gold pred r =
  get_f1_from_components_sequences is_equal (firstn m gold) (firstn m pred) r
  /\ (forall extra : list (list TagComponent),
         get_f1_from_components_sequences is_equal
           (firstn m gold ++ extra) (firstn m pred) r =
         get_f1_from_components_sequences is_equal gold pred r)
  /\ (forall extra : list (list TagComponent),
         get_f1_from_components_sequences is_equal
           (firstn m gold) (firstn m pred ++ extra) r =
         get_f1_from_components_sequences is_equal gold pred r).
Proof.
  intros m.
  assert (Hm : (m <= List.length gold /\ m <= List.length pred)%nat)
    by (unfold m; lia).
  unfold get_f1_from_components_sequences, Evaluator.count_sequences.
  repeat split; intros.
  - unfold m. rewrite combine_common_prefix. reflexivity.
  - rewrite combine_ignores_trailing_l
      by (rewrite !length_firstn; lia).
    unfold m. rewrite combine_common_prefix. reflexivity.
  - rewrite combine_ignores_trailing_r
      by (rewrite !length_firstn; lia).
    unfold m. rewrite combine_common_prefix. reflexivity.
Qed.

Lemma count_if_all (A : Type) (f : A -> bool) (l : list A) :
  forallb f l = true -> count_if f l = Z.of_nat (List.length l).
Proof.
  intros H. unfold count_if. f_equal. f_equal.
  induction l as [| x l IH]; [reflexivity |].
  cbn [forallb] in H. apply andb_true_iff in H as [Hx Hl].
  cbn [filter]. rewrite Hx, IH by assumption. reflexivity.
Qed.

Lemma count_if_none (A : Type) (f : A -> bool) (l : list A) :
  forallb f l = true -> count_if (fun x => negb (f x)) l = 0.
Proof.
  intros H. pose proof (count_if_split A f l) as Hs.
  rewrite (count_if_all A f l H) in Hs. lia.
Qed.

(** Every span of a sequence scored against itself is found. *)
Lemma self_matched (spans : list TagComponent) :
  forallb (fun x => is_equal x x r) spans = true ->
  forallb (gold_is_matched spans) spans = true
  /\ forallb (predicted_is_matched spans) spans = true.
Proof.
  intros H.
  assert (Hin : forall x, In x spans -> is_equal x x r = true)
    by (apply forallb_forall; exact H).
  split; apply forallb_forall; intros x Hx;
    apply existsb_exists; exists x; auto.
Qed.

Lemma identical_corpora_counts (gold : list (list TagComponent)) :
  forallb (fun x => is_equal x x r) (List.concat gold) = true ->
  spec_TP gold gold = Z.of_nat (List.length (List.concat gold))
  /\ spec_FP gold gold = 0
  /\ spec_FN gold gold = 0.
Proof.
  induction gold as [| g gold IH]; intros H; [repeat split |].
  cbn [List.concat] in H. rewrite forallb_app in H.
  apply andb_true_iff in H as [Hg Hrest].
  destruct (IH Hrest) as (Htp & Hfp & Hfn).
  destruct (self_matched g Hg) as [Hgm Hpm].
  cbn [Evaluator.spec_TP Evaluator.spec_FP Evaluator.spec_FN List.concat].
  rewrite Htp, Hfp, Hfn.
  rewrite (count_if_all _ _ _ Hgm).
  rewrite (count_if_none _ _ _ Hgm), (count_if_none _ _ _ Hpm).
  rewrite length_app. lia.
Qed.

(** C7, amended. When the predicted span sequences are the gold span
    sequences and [is_equal] holds between each span and itself, TP is
    the total number of gold spans and FP = FN = 0; F1 is 100 when the
    corpus holds at least one span, and 0 when it holds none. *)
Theorem identical_corpora_score (gold : list (list TagComponent)) :
  forallb (fun x => is_equal x x r) (List.concat gold) = true ->
  let spans := Z.of_nat (List.length (List.concat gold)) in
  exists F1 Precision Recall : Q,
    get_f1_from_components_sequences is_equal gold gold r =
    Ok (F1, Precision, Recall, (spans, 0, 0))
    /\ (0 < spans -> (F1 == 100)%Q)
    /\ (spans = 0 -> (F1 == 0)%Q).
Proof.
  intros H spans.
  destruct (identical_corpora_counts gold H) as (Htp & Hfp & Hfn).
  rewrite get_f1_total. cbv zeta. rewrite Htp, Hfp, Hfn. fold spans.
  do 3 eexists. split; [reflexivity |]. split.
  - intros Hpos.
    replace (Z.max (2 * spans + 0 + 0) 1) with (2 * spans) by lia.
    assert (Hnz : ~ (inject_Z (2 * spans) == 0)%Q)
      by (unfold Qeq; cbn [Qnum Qden inject_Z]; lia).
    field. exact Hnz.
  - intros ->. reflexivity.
Qed.

End EvaluatorFacts.

Lemma identical_corpora_score_witness :
  exists F1 Precision Recall : Q,
    Evaluator.get_f1_from_components_sequences exact_match
      [[1; 2]; [3]]%nat [[1; 2]; [3]]%nat tt =
    Ok (F1, Precision, Recall, (3, 0, 0)%Z)
    /\ ((0 < 3)%Z -> (F1 == 100)%Q)
    /\ (3%Z = 0%Z -> (F1 == 0)%Q).
Proof.
  apply (identical_corpora_score nat unit exact_match tt [[1; 2]; [3]]%nat).
  reflexivity.
Defined.

(** C7 as stated fails on a corpus without spans: gold and predicted are
    identical, every counter is 0, and F1 is 0, not 100. *)
Lemma identical_spanless_corpus_f1_is_0 :
  forallb (fun x => exact_match x x tt) (List.concat [[]; []]) = true
  /\ exists F1 Precision Recall : Q,
      Evaluator.get_f1_from_components_sequences exact_match
        [[]; []] [[]; []] tt =
      Ok (F1, Precision, Recall, (0, 0, 0)%Z)
      /\ (F1 == 0)%Q
      /\ ~ (F1 == 100)%Q.
Proof.
  split; [reflexivity |].
  do 3 eexists. split; [reflexivity |].
  split; [reflexivity | discriminate].
Qed.

(** ** The rates as the doubles the code returns *)

Section DoubleFacts.

Lemma digits2_size (p : positive) : digits2_pos p = Pos.size p.
Proof. induction p; cbn; congruence. Qed.

(** An integer below 2^53 has at most 53 binary digits. *)
Lemma digits2_le_53 (p : positive) :
  (Zpos p < 2 ^ 53)%Z -> (Zpos (digits2_pos p) <= 53)%Z.
Proof.
  intros H. rewrite digits2_size.
  pose proof (Pos.size_le p) as Hle.
  destruct (Z_le_gt_dec (Zpos (Pos.size p)) 53) as [Hok | Hbig];
    [exact Hok |].
  exfalso.
  assert (Hpow : (2 ^ 54 <= 2 ^ Zpos (Pos.size p))%Z)
    by (apply Z.pow_le_mono_r; lia).
  assert (H2 : (2 ^ Zpos (Pos.size p) <= Zpos p~0)%Z).
  { rewrite <- Pos2Z.inj_pow. apply Pos2Z.pos_le_pos. exact Hle. }
  change (2 ^ 54)%Z with (2 * 2 ^ 53)%Z in Hpow. lia.
Qed.

Lemma digits2_iter_xO (p d : positive) :
  digits2_pos (Pos.iter xO p d) = (digits2_pos p + d)%positive.
Proof.
  induction d using Pos.peano_ind.
  - cbn. lia.
  - rewrite Pos.iter_succ. cbn [digits2_pos]. rewrite IHd. lia.
Qed.

(** A positive integer below 2^53 converts to a finite positive double:
    its digits shifted to 53 bits, nothing rounded away. *)
Lemma double_of_Z_finite (p : positive) :
  (Zpos p < 2 ^ 53)%Z ->
  exists m e, double_of_Z (Zpos p) = S754_finite false m e.
Proof.
  intros H. pose proof (digits2_le_53 p H) as Hd.
  unfold double_of_Z, binary_normalize, binary_round.
  unfold fexp, emin.
  set (dg := Zpos (digits2_pos p)) in *.
  replace (Z.max (dg + 0 - 53) (3 - 1024 - 53))%Z with (dg - 53)%Z by lia.
  unfold shl_align.
  destruct (dg - 53 - 0)%Z as [| q | q] eqn:E; try lia.
  - unfold binary_round_aux, shr_fexp, fexp, emin.
    cbn [Zdigits2 shr_record_of_loc]. fold dg.
    replace (Z.max (dg + 0 - 53) (3 - 1024 - 53) - 0)%Z with 0%Z by lia.
    cbn [shr shr_m loc_of_shr_record round_nearest_even Zdigits2].
    fold dg.
    replace (Z.max (dg + 0 - 53) (3 - 1024 - 53) - 0)%Z with 0%Z by lia.
    cbn. eauto.
  - unfold binary_round_aux, shr_fexp, fexp, emin.
    cbn [Zdigits2 shr_record_of_loc].
    rewrite digits2_iter_xO.
    assert (Hq : (Zpos (digits2_pos p + q) + (dg - 53) = dg)%Z).
    { rewrite Pos2Z.inj_add. fold dg. lia. }
    rewrite Hq.
    replace (Z.max (dg - 53) (3 - 1024 - 53) - (dg - 53))%Z with 0%Z by lia.
    cbn [shr shr_m loc_of_shr_record round_nearest_even Zdigits2].
    rewrite digits2_iter_xO, Hq.
    replace (Z.max (dg - 53) (3 - 1024 - 53) - (dg - 53))%Z with 0%Z by lia.
    cbn [shr shr_m].
    destruct (Z.leb_spec (dg - 53) (1024 - 53)) as [_ | Hbad];
      [eauto | lia].
Qed.

Lemma truediv_double_guarded (a d : Z) :
  truediv_double a (Z.max d 1) =
  Ok (double_div (double_of_Z a) (double_of_Z (Z.max d 1))).
Proof.
  unfold truediv_double.
  destruct (Z.eqb_spec (Z.max d 1) 0) as [E | _]; [lia | reflexivity].
Qed.

(** [0 / d * 100] is the double [0.0]. *)
Lemma zero_rate (d : Z) :
  (0 <= d < 2 ^ 53)%Z ->
  double_mul (double_div (double_of_Z 0) (double_of_Z (Z.max d 1)))
             (double_of_Z 100) = S754_zero false.
Proof.
  intros Hd.
  destruct (Z.max d 1) as [| p | p] eqn:E; try lia.
  destruct (double_of_Z_finite p) as (m & e & ->);
    [change (2 ^ 53)%Z with 9007199254740992%Z in *; lia |].
  reflexivity.
Qed.

Variable TagComponent : Type.
Variable Ratio : Type.
Variable is_equal : TagComponent -> TagComponent -> Ratio -> bool.
Variable r : Ratio.

(** C3, amended. For every triple of non-negative counters (below 2^53,
    so that they are doubles), no division by zero is raised and the
    rates returned are [(TP / max(TP+FP,1))*100],
    [(TP / max(TP+FN,1))*100] and [(2*TP / max(2*TP+FP+FN,1))*100] in
    double arithmetic: the quotient rounded to a double, then its product
    with 100 rounded again.  Each rate is the double 0.0 when [TP] is 0.
    These are the rates [get_f1_from_components_sequences] returns, next
    to the triple, for any corpus on which the loop accumulates these
    counters. *)
Theorem rates_in_double_arithmetic (tp fp fn : Z) :
  (0 <= tp)%Z -> (0 <= fp)%Z -> (0 <= fn)%Z ->
  (2 * tp + fp + fn < 2 ^ 53)%Z ->
  exists F1 Precision Recall : double,
    rates_double tp fp fn = Ok (F1, Precision, Recall)
    /\ Precision =
       double_mul
         (double_div (double_of_Z tp) (double_of_Z (Z.max (tp + fp) 1)))
         (double_of_Z 100)
    /\ Recall =
       double_mul
         (double_div (double_of_Z tp) (double_of_Z (Z.max (tp + fn) 1)))
         (double_of_Z 100)
    /\ F1 =
       double_mul
         (double_div (double_of_Z (2 * tp))
                     (double_of_Z (Z.max (2 * tp + fp + fn) 1)))
         (double_of_Z 100)
    /\ (tp = 0%Z ->
        Precision = S754_zero false
        /\ Recall = S754_zero false
        /\ F1 = S754_zero false)
    /\ (forall gold pred : list (list TagComponent),
           Evaluator.count_sequences is_equal r gold pred =
           Evaluator.Counters tp fn fp ->
           get_f1_from_components_sequences_double is_equal gold pred r =
           Ok (F1, Precision, Recall, (tp, fp, fn))).
Proof.
  intros Htp Hfp Hfn Hsmall.
  unfold rates_double. rewrite !truediv_double_guarded. cbn [bind].
  do 3 eexists. split; [reflexivity |].
  split; [reflexivity |]. split; [reflexivity |]. split; [reflexivity |].
  split.
  - intros ->. change (2 * 0)%Z with 0%Z.
    repeat split; apply zero_rate; lia.
  - intros gold pred Hc. unfold get_f1_from_components_sequences_double.
    rewrite Hc. cbn [Evaluator.TP Evaluator.FN Evaluator.FP].
    unfold rates_double. rewrite !truediv_double_guarded. reflexivity.
Qed.

End DoubleFacts.

Lemma rates_in_double_arithmetic_witness :
  exists F1 Precision Recall : double,
    rates_double 1 0 1 = Ok (F1, Precision, Recall)
    /\ Precision =
       double_mul
         (double_div (double_of_Z 1) (double_of_Z (Z.max (1 + 0) 1)))
         (double_of_Z 100)
    /\ Recall =
       double_mul
         (double_div (double_of_Z 1) (double_of_Z (Z.max (1 + 1) 1)))
         (double_of_Z 100)
    /\ F1 =
       double_mul
         (double_div (double_of_Z (2 * 1))
                     (double_of_Z (Z.max (2 * 1 + 0 + 1) 1)))
         (double_of_Z 100)
    /\ (1%Z = 0%Z ->
        Precision = S754_zero false
        /\ Recall = S754_zero false
        /\ F1 = S754_zero false)
    /\ (forall gold pred : list (list nat),
           Evaluator.count_sequences exact_match tt gold pred =
           Evaluator.Counters 1 1 0 ->
           get_f1_from_components_sequences_double exact_match gold pred tt =
           Ok (F1, Precision, Recall, (1, 0, 1)%Z)).
Proof.
  apply (rates_in_double_arithmetic nat unit exact_match tt 1 0 1).
  - lia.
  - lia.
  - lia.
  - reflexivity.
Defined.

(** C3 as stated fails at TP = 1, FP = 0, FN = 1 (two gold spans, one of
    them predicted): the F1 returned is the double 66.66666666666666,
    that is 4691249611844266 / 2^46.  It is not the number
    [100*2*TP/max(2*TP+FP+FN,1) = 200/3], and not the double nearest to
    it either, which the expression of the claim evaluates to. *)
Lemma f1_double_is_not_the_exact_rate :
  exists (F1 Precision Recall : double) (value : Q),
    get_f1_from_components_sequences_double exact_match [[1; 2]] [[1]] tt =
    Ok (F1, Precision, Recall, (1, 0, 1)%Z)
    /\ F1 = S754_finite false 4691249611844266 (-46)
    /\ double_value F1 = Some value
    /\ ~ (value == 100 * (2 * inject_Z 1)
                   / inject_Z (Z.max (2 * 1 + 0 + 1) 1))%Q
    /\ F1 <> double_div (double_of_Z (100 * (2 * 1)))
                        (double_of_Z (Z.max (2 * 1 + 0 + 1) 1)).
Proof.
  do 4 eexists. split; [vm_compute; reflexivity |].
  split; [reflexivity |]. split; [reflexivity |].
  split.
  - vm_compute. discriminate.
  - vm_compute. discriminate.
Qed.

(** ** Length bucketing: sorting and restoring *)

Section BucketingFacts.
Import Utils.

Lemma insert_by_len_perm (lens : list nat) (i : nat) (sorted : list nat) :
  Permutation (insert_by_len lens i sorted) (i :: sorted).
Proof.
  induction sorted as [| j rest IH]; cbn [insert_by_len].
  - apply Permutation_refl.
  - destruct (nth i lens 0 <? nth j lens 0).
    + apply perm_trans with (j :: i :: rest).
      * apply perm_skip, IH.
      * apply perm_swap.
    + apply Permutation_refl.
Qed.

Lemma sort_by_len_perm (lens indices : list nat) :
  Permutation (sort_by_len lens indices) indices.
Proof.
  unfold sort_by_len.
  induction indices as [| i indices IH]; cbn [fold_right].
  - apply perm_nil.
  - eapply perm_trans; [apply insert_by_len_perm |].
    apply perm_skip, IH.
Qed.

Lemma insert_by_len_sorted (lens : list nat) (i : nat) (sorted : list nat) :
  Sorted (longer_first lens) sorted ->
  Sorted (longer_first lens) (insert_by_len lens i sorted).
Proof.
  induction sorted as [| j rest IH]; intros Hs; cbn [insert_by_len].
  - repeat constructor.
  - destruct (Nat.ltb_spec (nth i lens 0) (nth j lens 0)) as [Hlt | Hge].
    + inversion Hs as [| ? ? Hrest Hhd]; subst.
      constructor; [apply IH, Hrest |].
      destruct rest as [| k rest']; cbn [insert_by_len].
      * constructor. unfold longer_first. lia.
      * destruct (nth i lens 0 <? nth k lens 0).
        -- inversion Hhd; subst. constructor. assumption.
        -- constructor. unfold longer_first. lia.
    + constructor; [assumption |]. constructor. exact Hge.
Qed.

Lemma sort_by_len_sorted (lens indices : list nat) :
  Sorted (longer_first lens) (sort_by_len lens indices).
Proof.
  unfold sort_by_len.
  induction indices as [| i indices IH]; cbn [fold_right].
  - constructor.
  - apply insert_by_len_sorted, IH.
Qed.

Lemma index_of_spec (j : nat) (p : list nat) :
  In j p -> index_of j p < List.length p /\ nth (index_of j p) p 0 = j.
Proof.
  induction p as [| y rest IH]; intros Hin; [destruct Hin |].
  cbn [index_of]. destruct (Nat.eqb_spec j y) as [-> | Hne].
  - cbn [List.length nth]. split; [lia | reflexivity].
  - destruct Hin as [Heq | Hin]; [congruence |].
    destruct (IH Hin) as [Hlt Hnth].
    cbn [List.length nth]. split; [lia | exact Hnth].
Qed.

Lemma map_nth_seq (B : Type) (d : B) (l : list B) :
  map (fun j => nth j l d) (seq 0 (List.length l)) = l.
Proof.
  induction l as [| x l IH]; [reflexivity |].
  cbn [List.length seq map nth]. f_equal.
  rewrite <- seq_shift, map_map. exact IH.
Qed.

(** Gathering with indices that are all in range does not raise. *)
Lemma get_sequences_in_range (B : Type) (d : B) (l : list B) (indices : list nat) :
  (forall i, In i indices -> i < List.length l) ->
  get_sequences_by_indices l indices = Ok (map (fun i => nth i l d) indices).
Proof.
  induction indices as [| i rest IH]; intros Hrange; [reflexivity |].
  cbn [get_sequences_by_indices map].
  rewrite (nth_error_nth' l d) by (apply Hrange; left; reflexivity).
  rewrite IH by (intros k Hk; apply Hrange; right; exact Hk).
  reflexivity.
Qed.

Lemma perm_seq_range (p : list nat) (n : nat) :
  Permutation p (seq 0 n) ->
  List.length p = n /\ (forall i, In i p <-> i < n).
Proof.
  intros Hp. split.
  - rewrite (Permutation_length Hp). apply length_seq.
  - intros i. split; intros H.
    + apply (Permutation_in _ Hp), in_seq in H. lia.
    + apply (Permutation_in _ (Permutation_sym Hp)), in_seq. lia.
Qed.

(** Gathering by a permutation and then by its inverse is the identity,
    also when every element was transformed in between. *)
Lemma gather_restore (B C : Type) (f : B -> C) (l : list B) (p : list nat) :
  Permutation p (seq 0 (List.length l)) ->
  exists sorted : list B,
    get_sequences_by_indices l p = Ok sorted
    /\ get_sequences_by_indices (map f sorted) (inverse_permutation p) =
       Ok (map f l).
Proof.
  intros Hp. destruct (perm_seq_range p _ Hp) as [Hlen Hin].
  destruct l as [| d l'].
  - cbn [List.length] in Hlen. apply length_zero_iff_nil in Hlen. subst p.
    exists []. split; reflexivity.
  - set (l := d :: l') in *.
    exists (map (fun i => nth i l d) p). split.
    + apply get_sequences_in_range. intros i Hi. apply Hin, Hi.
    + unfold inverse_permutation.
      rewrite (get_sequences_in_range C (f d)).
      * rewrite map_map, Hlen. f_equal.
        transitivity (map (fun j => nth j (map f l) (f d))
                          (seq 0 (List.length (map f l))));
          [| apply map_nth_seq].
        rewrite length_map. apply map_ext_in. intros j Hj.
        apply in_seq in Hj.
        destruct (index_of_spec j p) as [Hlt Hnth]; [apply Hin; lia |].
        rewrite map_map.
        rewrite (nth_indep _ (f d) (f (nth 0 l d)))
          by (rewrite length_map; exact Hlt).
        rewrite (map_nth (fun i => f (nth i l d)) p 0 (index_of j p)).
        rewrite Hnth. symmetry. apply map_nth.
      * intros k Hk. apply in_map_iff in Hk as (j & <- & Hj).
        apply in_seq in Hj. rewrite !length_map.
        apply index_of_spec, Hin. lia.
Qed.

Lemma get_sequences_length (B : Type) (l : list B) (indices : list nat)
      (out : list B) :
  get_sequences_by_indices l indices = Ok out ->
  List.length out = List.length indices.
Proof.
  revert out; induction indices as [| i rest IH]; intros out H.
  - injection H as <-. reflexivity.
  - cbn [get_sequences_by_indices] in H.
    destruct (nth_error l i) as [x |]; [| discriminate].
    destruct (get_sequences_by_indices l rest) as [xs | e]; [| discriminate].
    cbn [bind] in H. injection H as <-.
    cbn [List.length]. rewrite (IH xs eq_refl). reflexivity.
Qed.

(** Gathering by a permutation puts element [i] at the position of [i]
    in the permutation. *)
Lemma gather_by_permutation (B : Type) (l : list B) (p : list nat) :
  Permutation p (seq 0 (List.length l)) ->
  exists sorted : list B,
    get_sequences_by_indices l p = Ok sorted
    /\ List.length sorted = List.length l
    /\ forall i, i < List.length l ->
                 nth_error sorted (index_of i p) = nth_error l i.
Proof.
  intros Hp. destruct (perm_seq_range p _ Hp) as [Hlen Hin].
  destruct l as [| d l'].
  - cbn [List.length] in Hlen. apply length_zero_iff_nil in Hlen. subst p.
    exists []. repeat split. intros i Hi. cbn [List.length] in Hi. lia.
  - set (l := d :: l') in *.
    exists (map (fun i => nth i l d) p). split; [| split].
    + apply get_sequences_in_range. intros i Hi. apply Hin, Hi.
    + rewrite length_map. exact Hlen.
    + intros i Hi.
      destruct (index_of_spec i p) as [Hlt Hnth]; [apply Hin, Hi |].
      rewrite (nth_error_nth' _ d) by (rewrite length_map; exact Hlt).
      rewrite (nth_indep _ d (nth 0 l d)) by (rewrite length_map; exact Hlt).
      rewrite (map_nth (fun k => nth k l d) p 0 (index_of i p)), Hnth.
      symmetry. apply nth_error_nth'. exact Hi.
Qed.

(** Gathering by the inverse permutation brings the element at the
    position of [i] back to position [i]. *)
Lemma restore_by_inverse (C : Type) (decoded : list C) (p : list nat) :
  Permutation p (seq 0 (List.length decoded)) ->
  exists out : list C,
    get_sequences_by_indices decoded (inverse_permutation p) = Ok out
    /\ List.length out = List.length decoded
    /\ forall i, i < List.length decoded ->
                 nth_error out i = nth_error decoded (index_of i p).
Proof.
  intros Hp. destruct (perm_seq_range p _ Hp) as [Hlen Hin].
  unfold inverse_permutation. rewrite Hlen.
  destruct decoded as [| d decoded'].
  - exists []. repeat split. intros i Hi. cbn [List.length] in Hi. lia.
  - set (l := d :: decoded') in *.
    exists (map (fun k => nth k l d)
                (map (fun j => index_of j p) (seq 0 (List.length l)))).
    split; [| split].
    + apply get_sequences_in_range. intros k Hk.
      apply in_map_iff in Hk as (j & <- & Hj). apply in_seq in Hj.
      rewrite <- Hlen. apply index_of_spec, Hin. lia.
    + rewrite !length_map, length_seq. reflexivity.
    + intros i Hi.
      destruct (index_of_spec i p) as [Hlt _]; [apply Hin, Hi |].
      rewrite map_map.
      rewrite (nth_error_nth' _ d)
        by (rewrite length_map, length_seq; exact Hi).
      rewrite (nth_indep _ d (nth (index_of 0 p) l d))
        by (rewrite length_map, length_seq; exact Hi).
      rewrite (map_nth (fun j => nth (index_of j p) l d)
                 (seq 0 (List.length l)) 0 i).
      rewrite seq_nth by exact Hi. cbn [Nat.add].
      symmetry. apply nth_error_nth'. rewrite <- Hlen. exact Hlt.
Qed.

Lemma sort_indices_perm (A : Type) (list_in : list (list A)) :
  Permutation (fst (argsort_sequences_by_lens list_in))
              (seq 0 (List.length list_in)).
Proof.
  apply sort_by_len_perm.
Qed.

End BucketingFacts.

(** ** Prediction *)

Section PredictFacts.
Import Utils Tagger.

Variable Word : Type.
Variable Tag : Type.
Variable decode_sequence : list Word -> list nat.
Variable idx2item : nat -> Tag.

Local Abbreviation predict_idx_from_words :=
  (predict_idx_from_words decode_sequence).
Local Abbreviation predict_tags_from_words :=
  (predict_tags_from_words decode_sequence idx2item).
Local Abbreviation predict_tags_single_call :=
  (predict_tags_single_call decode_sequence idx2item).
Local Abbreviation tags_of := (tags_of decode_sequence idx2item).

Lemma predict_idx_from_words_ok (word_sequences : list (list Word)) :
  word_sequences <> [] ->
  predict_idx_from_words word_sequences =
  Ok (map decode_sequence word_sequences).
Proof.
  intros Hne.
  unfold Tagger.predict_idx_from_words, predict_idx_from_words_with.
  pose proof (sort_indices_perm Word word_sequences) as Hperm.
  unfold argsort_sequences_by_lens in *. cbn [fst] in Hperm.
  destruct (gather_restore _ _ decode_sequence word_sequences _ Hperm)
    as (sorted & Hsorted & Hrestore).
  rewrite Hsorted. cbn [bind].
  assert (Hlen : List.length sorted = List.length word_sequences).
  { rewrite (get_sequences_length _ _ _ _ Hsorted).
    rewrite (Permutation_length Hperm). apply length_seq. }
  destruct sorted as [| x sorted'].
  - destruct word_sequences; [congruence | discriminate].
  - cbn [decode_batch bind]. exact Hrestore.
Qed.

Lemma predict_tags_single_call_ok (word_sequences : list (list Word)) :
  word_sequences <> [] ->
  predict_tags_single_call word_sequences =
  Ok (map tags_of word_sequences).
Proof.
  intros Hne. unfold Tagger.predict_tags_single_call.
  rewrite predict_idx_from_words_ok by exact Hne. cbn [bind].
  unfold idx2items. rewrite map_map. reflexivity.
Qed.

(** C5. For every list of word sequences, [sort_indices] is a
    permutation of the positions, and gathering by [sort_indices] and
    then by [reverse_sort_indices] gives back the list itself, in order
    and content.  Whatever the decoding of the sorted batch does:
    when it raises, [predict_idx_from_words] raises the same; when it
    returns one index sequence per sequence of the batch,
    [predict_idx_from_words] returns them in the caller's order: at
    position [i] the index sequence decoded at the position to which the
    sort has moved input [i]. *)
Theorem restore_after_sort
        (decode : list (list Word) -> result (list (list nat)))
        (word_sequences : list (list Word)) :
  let sort_indices := fst (argsort_sequences_by_lens word_sequences) in
  let reverse_sort_indices :=
    snd (argsort_sequences_by_lens word_sequences) in
  Permutation sort_indices (seq 0 (List.length word_sequences))
  /\ (sorted <- get_sequences_by_indices word_sequences sort_indices ;;
      get_sequences_by_indices sorted reverse_sort_indices) =
     Ok word_sequences
  /\ exists sorted : list (list Word),
      get_sequences_by_indices word_sequences sort_indices = Ok sorted
      /\ List.length sorted = List.length word_sequences
      /\ (forall i, i < List.length word_sequences ->
                    nth_error sorted (index_of i sort_indices) =
                    nth_error word_sequences i)
      /\ (forall e : exn,
             decode sorted = Raise e ->
             predict_idx_from_words_with decode word_sequences = Raise e)
      /\ (forall decoded : list (list nat),
             decode sorted = Ok decoded ->
             List.length decoded = List.length sorted ->
             exists out : list (list nat),
               predict_idx_from_words_with decode word_sequences = Ok out
               /\ List.length out = List.length word_sequences
               /\ forall i, i < List.length word_sequences ->
                            nth_error out i =
                            nth_error decoded (index_of i sort_indices)).
Proof.
  intros sort_indices reverse_sort_indices.
  pose proof (sort_indices_perm Word word_sequences) as Hperm.
  fold sort_indices in Hperm.
  split; [exact Hperm |]. split.
  - destruct (gather_restore _ _ (fun x => x) word_sequences _ Hperm)
      as (sorted & Hsorted & Hrestore).
    rewrite Hsorted. cbn [bind].
    rewrite !map_id in Hrestore. exact Hrestore.
  - destruct (gather_by_permutation _ word_sequences _ Hperm)
      as (sorted & Hsorted & Hlen & Hpos).
    exists sorted. split; [exact Hsorted |]. split; [exact Hlen |].
    split; [exact Hpos |].
    unfold predict_idx_from_words_with, argsort_sequences_by_lens.
    unfold sort_indices, argsort_sequences_by_lens in Hsorted, Hperm, Hpos.
    cbn [fst] in Hsorted, Hperm, Hpos.
    rewrite Hsorted. cbn [bind]. split.
    + intros e He. rewrite He. reflexivity.
    + intros decoded Hdec Hdlen. rewrite Hdec. cbn [bind].
      rewrite Hlen in Hdlen.
      assert (Hperm' :
                Permutation
                  (sort_by_len (map (@List.length Word) word_sequences)
                     (seq 0 (List.length word_sequences)))
                  (seq 0 (List.length decoded)))
        by (rewrite Hdlen; exact Hperm).
      destruct (restore_by_inverse _ decoded _ Hperm')
        as (out & Hout & Holen & Hopos).
      exists out. rewrite Hdlen in Holen, Hopos.
      split; [exact Hout |]. split; [exact Holen |]. exact Hopos.
Qed.

(** C9. With a positive effective batch size and a non-empty input
    shorter than it, the number of sub-batches is
    [floor(len(word_sequences) / batch_size) = 0] and the returned list
    of tag sequences is empty. *)
Theorem short_input_predicts_nothing
        (self_batch_size : Z) (word_sequences : list (list Word))
        (batch_size : Z) :
  let size := effective_batch_size self_batch_size batch_size in
  (0 < size)%Z ->
  word_sequences <> [] ->
  (Z.of_nat (List.length word_sequences) < size)%Z ->
  floor_div (Z.of_nat (List.length word_sequences)) size = Ok 0%Z
  /\ predict_tags_from_words self_batch_size word_sequences batch_size =
     Ok [].
Proof.
  intros size Hpos _ Hshort.
  assert (Hdiv : floor_div (Z.of_nat (List.length word_sequences)) size
                 = Ok 0%Z).
  { unfold floor_div.
    destruct (Z.eqb_spec size 0) as [E | _]; [lia |].
    rewrite Z.div_small by lia. reflexivity. }
  split; [exact Hdiv |].
  unfold Tagger.predict_tags_from_words.
  fold (effective_batch_size self_batch_size batch_size). fold size.
  rewrite Hdiv. reflexivity.
Qed.

(** C1, at the input where the code departs from it: one word sequence
    and a sub-batch size of 2.  The loop runs [floor(1/2) = 0] times and
    returns no tag sequence, while a single call predicts one. *)
Theorem single_sequence_is_dropped
        (self_batch_size : Z) (word_sequence : list Word) :
  predict_tags_from_words self_batch_size [word_sequence] 2 = Ok []
  /\ predict_tags_single_call [word_sequence] =
     Ok [tags_of word_sequence].
Proof.
  split; [reflexivity | apply predict_tags_single_call_ok; discriminate].
Qed.

End PredictFacts.

(** ** Construction *)

(** C6. With an [rnn_type] other than ['GRU'] and ['LSTM'] the constructor
    never returns a tagger: the layer selection raises [ValueError], which
    is the error of the constructor whenever the statements before it
    went through. *)
Theorem unknown_rnn_type_raises
        (word_embeddings : result Z)
        (class_num batch_size rnn_hidden_dim : Z)
        (rnn_type : string) (gpu : Z) :
  rnn_type <> "GRU"%string ->
  rnn_type <> "LSTM"%string ->
  (forall input_dim,
      Tagger.make_birnn_layer rnn_type input_dim rnn_hidden_dim gpu =
      Raise ValueError)
  /\ (exists e : exn,
         Tagger.init word_embeddings class_num batch_size rnn_hidden_dim
                     rnn_type gpu = Raise e)
  /\ (forall output_dim,
         word_embeddings = Ok output_dim ->
         Tagger.init word_embeddings class_num batch_size rnn_hidden_dim
                     rnn_type gpu = Raise ValueError).
Proof.
  intros Hgru Hlstm.
  assert (Hsel : forall input_dim,
             Tagger.make_birnn_layer rnn_type input_dim rnn_hidden_dim gpu =
             Raise ValueError).
  { intros input_dim. unfold Tagger.make_birnn_layer.
    apply String.eqb_neq in Hgru, Hlstm. rewrite Hgru, Hlstm. reflexivity. }
  split; [exact Hsel |]. unfold Tagger.init. split.
  - destruct word_embeddings as [output_dim | e]; cbn [bind].
    + rewrite Hsel. eexists; reflexivity.
    + eexists; reflexivity.
  - intros output_dim ->. cbn [bind]. rewrite Hsel. reflexivity.
Qed.

Lemma unknown_rnn_type_raises_witness :
  (forall input_dim,
      Tagger.make_birnn_layer "RNN" input_dim 100 (-1) = Raise ValueError)
  /\ (exists e : exn,
         Tagger.init (Ok 300%Z) 9 10 100 "RNN" (-1) = Raise e)
  /\ (forall output_dim,
         Ok 300%Z = Ok output_dim ->
         Tagger.init (Ok 300%Z) 9 10 100 "RNN" (-1) = Raise ValueError).
Proof.
  apply (unknown_rnn_type_raises (Ok 300%Z) 9 10 100 "RNN" (-1));
    discriminate.
Defined.

Lemma short_input_predicts_nothing_witness :
  Tagger.floor_div (Z.of_nat (List.length [[1; 2]; [3]])) 10 = Ok 0%Z
  /\ Tagger.predict_tags_from_words (fun ws : list nat => ws)
       (fun i : nat => i) 10 [[1; 2]; [3]] (-1) = Ok [].
Proof.
  apply (short_input_predicts_nothing nat nat (fun ws => ws) (fun i => i)
           10%Z [[1; 2]; [3]] (-1)%Z).
  - reflexivity.
  - discriminate.
  - reflexivity.
Defined.

(** ** The text report *)

Section TextFacts.

Lemma startswith_app (old s : text) : startswith old (old ++ s) = true.
Proof.
  induction old as [| a old IH]; [reflexivity |].
  cbn [app startswith]. rewrite Ascii.eqb_refl, IH. reflexivity.
Qed.

Lemma replace_from_skip (old new skipped s : text) :
  replace_from old new (List.length skipped) (skipped ++ s) =
  replace_from old new 0 s.
Proof.
  induction skipped as [| c skipped IH]; [reflexivity |].
  cbn [List.length app replace_from]. exact IH.
Qed.

(** A leading occurrence of [old] is replaced and the scan goes on after
    it. *)
Lemma replace_leading (a : ascii) (old new s : text) :
  replace (a :: old) new ((a :: old) ++ s) = new ++ replace (a :: old) new s.
Proof.
  unfold replace. cbn [app replace_from].
  change (a :: old ++ s) with ((a :: old) ++ s).
  rewrite startswith_app. f_equal.
  replace (List.length (a :: old) - 1) with (List.length old)
    by (cbn [List.length]; lia).
  apply replace_from_skip.
Qed.

(** A text without occurrence of [old] is left as it is. *)
Lemma replace_absent (a : ascii) (old new s : text) :
  occurs (a :: old) s = false -> replace (a :: old) new s = s.
Proof.
  unfold replace. induction s as [| c s IH]; [reflexivity |].
  cbn [occurs]. intros H. apply orb_false_iff in H as [Hhere Hlater].
  cbn [replace_from]. rewrite Hhere, IH by exact Hlater. reflexivity.
Qed.

(** An occurrence at the end of [s ++ [c]] that is not inside [s] ends
    with [c]. *)
Lemma startswith_snoc (old s : text) (c : ascii) :
  startswith old (s ++ [c]) = true ->
  startswith old s = true \/ old = s ++ [c].
Proof.
  revert s; induction old as [| a old IH]; intros s H; [left; reflexivity |].
  destruct s as [| b s]; cbn [app startswith] in H |- *.
  - apply andb_true_iff in H as [Hac Hold].
    apply Ascii.eqb_eq in Hac. subst a.
    destruct old; [right; reflexivity | discriminate].
  - apply andb_true_iff in H as [Hab Hold].
    rewrite Hab. apply Ascii.eqb_eq in Hab. subst b.
    destruct (IH s Hold) as [Hin | ->]; [left; exact Hin | right; reflexivity].
Qed.

Lemma occurs_snoc (a : ascii) (old s : text) (c : ascii) :
  last (a :: old) a <> c ->
  occurs (a :: old) s = false -> occurs (a :: old) (s ++ [c]) = false.
Proof.
  intros Hlast. induction s as [| b s IH]; intros H.
  - cbn [app occurs startswith]. rewrite !orb_false_r.
    destruct (Ascii.eqb_spec a c) as [-> | _]; [| reflexivity].
    destruct old as [| o old]; [| reflexivity].
    exfalso. apply Hlast. reflexivity.
  - cbn [occurs] in H. apply orb_false_iff in H as [Hhere Hlater].
    change ((b :: s) ++ [c]) with (b :: (s ++ [c])).
    cbn [occurs]. rewrite (IH Hlater), orb_false_r.
    destruct (startswith (a :: old) (b :: s ++ [c])) eqn:E; [| reflexivity].
    change (b :: s ++ [c]) with ((b :: s) ++ [c]) in E.
    apply startswith_snoc in E as [E | E]; [congruence |].
    exfalso. apply Hlast. rewrite E. apply last_last.
Qed.

(** Replacing a single character by nothing deletes that character. *)
Lemma replace_char_by_nothing (c : ascii) (s : text) :
  replace [c] [] s = filter (fun x => negb (Ascii.eqb c x)) s.
Proof.
  unfold replace. induction s as [| x s IH]; [reflexivity |].
  cbn [replace_from startswith filter List.length Nat.sub app].
  rewrite andb_true_r, IH. destruct (Ascii.eqb c x); reflexivity.
Qed.

Lemma filter_absent_char (c : ascii) (s : text) :
  occurs [c] s = false -> filter (fun x => negb (Ascii.eqb c x)) s = s.
Proof.
  induction s as [| x s IH]; [reflexivity |].
  cbn [occurs startswith]. rewrite andb_true_r. intros H.
  apply orb_false_iff in H as [Hx Hs].
  cbn [filter]. rewrite Hx, IH by exact Hs. reflexivity.
Qed.

Lemma filter_join (keep : ascii -> bool) (sep : text) (pieces : list text) :
  filter keep sep = sep ->
  (forall p, In p pieces -> filter keep p = p) ->
  filter keep (join sep pieces) = join sep pieces.
Proof.
  intros Hsep. induction pieces as [| p rest IH]; intros Hall; [reflexivity |].
  destruct rest as [| q rest].
  - apply Hall. left; reflexivity.
  - change (join sep (p :: q :: rest)) with (p ++ sep ++ join sep (q :: rest)).
    rewrite !filter_app, Hsep, IH, Hall.
    + reflexivity.
    + left; reflexivity.
    + intros x Hx. apply Hall. right; exact Hx.
Qed.

(** *** Splitting on a separator of two distinct characters *)

Variables a b : ascii.
Hypothesis distinct : a <> b.

Lemma split_absent (sep s : text) :
  occurs sep s = false -> split_from sep 0 s = [s].
Proof.
  induction s as [| c s IH]; [reflexivity |].
  cbn [occurs]. intros H. apply orb_false_iff in H as [Hhere Hlater].
  cbn [split_from]. rewrite Hhere, IH by exact Hlater. reflexivity.
Qed.

Lemma split_at_separator (piece rest : text) :
  occurs [a; b] piece = false ->
  split_from [a; b] 0 (piece ++ [a; b] ++ rest) =
  piece :: split_from [a; b] 0 rest.
Proof.
  induction piece as [| c piece IH]; intros H.
  - cbn [app split_from startswith List.length Nat.sub].
    rewrite !Ascii.eqb_refl. reflexivity.
  - cbn [occurs] in H. apply orb_false_iff in H as [Hhere Hlater].
    change ((c :: piece) ++ [a; b] ++ rest)
      with (c :: (piece ++ [a; b] ++ rest)).
    cbn [split_from].
    assert (Hno : startswith [a; b] (c :: piece ++ [a; b] ++ rest) = false).
    { destruct piece as [| x piece].
      - cbn [app startswith].
        destruct (Ascii.eqb_spec b a) as [E | _];
          [congruence | apply andb_false_r].
      - cbn [app startswith] in Hhere |- *. exact Hhere. }
    rewrite Hno, (IH Hlater). reflexivity.
Qed.

Lemma split_join (pieces : list text) :
  pieces <> [] ->
  (forall p, In p pieces -> occurs [a; b] p = false) ->
  split_from [a; b] 0 (join [a; b] pieces) = pieces.
Proof.
  induction pieces as [| p rest IH]; intros Hne Hall; [congruence |].
  destruct rest as [| q rest].
  - apply split_absent, Hall. left; reflexivity.
  - change (join [a; b] (p :: q :: rest))
      with (p ++ [a; b] ++ join [a; b] (q :: rest)).
    rewrite split_at_separator by (apply Hall; left; reflexivity).
    rewrite IH; [reflexivity | discriminate |].
    intros x Hx. apply Hall. right; exact Hx.
Qed.

End TextFacts.

Section ReportFacts.
Import Report.

Lemma text_eqb_refl (name : text) : text_eqb name name = true.
Proof.
  unfold text_eqb. destruct (list_eq_dec Ascii.ascii_dec name name);
    [reflexivity | congruence].
Qed.

Lemma text_eqb_neq (name other : text) :
  other <> name -> text_eqb other name = false.
Proof.
  intros H. unfold text_eqb.
  destruct (list_eq_dec Ascii.ascii_dec other name); [congruence | reflexivity].
Qed.

(** Writing the pieces one after the other appends their lines to the
    open file. *)
Lemma write_lines (fn : text) (pieces : list text) (fs : filesystem)
      (held : text) :
  content fs fn = Some held ->
  content
    (fold_left
       (fun text_file hyper_param =>
          file_write fn (hyper_param ++ [newline]) text_file)
       pieces fs) fn =
  Some (held ++ flat_map (fun p => p ++ [newline]) pieces).
Proof.
  revert fs held.
  induction pieces as [| p pieces IH]; intros fs held Hfn.
  - cbn [fold_left flat_map]. rewrite app_nil_r. exact Hfn.
  - cbn [fold_left flat_map].
    rewrite (IH (file_write fn (p ++ [newline]) fs) (held ++ p ++ [newline])).
    + rewrite <- !app_assoc. reflexivity.
    + unfold file_write. cbn [content].
      rewrite text_eqb_refl, Hfn. reflexivity.
Qed.

(** When the file cannot be opened, the call raises before anything is
    written. *)
Lemma write_text_report_fails (fn str_args scores : text) (fs : filesystem) :
  can_open_w fs fn = false ->
  write_text_report fn str_args scores fs = Raise OSError.
Proof.
  intros H. unfold write_text_report, open_w. rewrite H. reflexivity.
Qed.

(** What the function writes for any [str(args)], once the file is open:
    one line per piece of the split, then the scores. *)
Lemma write_text_report_pieces (fn str_args scores : text) (fs : filesystem) :
  can_open_w fs fn = true ->
  exists fs' : filesystem,
    write_text_report fn str_args scores fs = Ok fs'
    /\ content fs' fn =
       Some (flat_map (fun p => p ++ [newline])
               (split_from (str ", ") 0
                  (replace (str ")") (str "")
                     (replace (str "Namespace(") (str "") str_args)))
             ++ scores).
Proof.
  intros Hopen. unfold write_text_report, open_w. rewrite Hopen.
  change (split (str ", ")) with (fun s => Ok (split_from (str ", ") 0 s)).
  cbn [bind].
  set (pieces := split_from _ 0 _).
  set (opened := {| content := _; can_open_w := _ |}).
  pose proof (write_lines fn pieces opened []) as Hcontent.
  eexists. split; [reflexivity |].
  unfold file_write at 1. cbn [content].
  rewrite text_eqb_refl, Hcontent; [reflexivity |].
  unfold opened. cbn [content]. rewrite text_eqb_refl. reflexivity.
Qed.

(** The entries of a namespace come back from its printed form when the
    marker, the closing parenthesis and the separator occur nowhere else. *)
Lemma namespace_str_pieces (entries : list text) :
  entries <> [] ->
  occurs (str "Namespace(") (join (str ", ") entries) = false ->
  (forall e, In e entries ->
             occurs (str ")") e = false /\ occurs (str ", ") e = false) ->
  split_from (str ", ") 0
    (replace (str ")") (str "")
       (replace (str "Namespace(") (str "") (namespace_str entries))) =
  entries.
Proof.
  intros Hne Hmarker Hentry.
  unfold namespace_str.
  change (str "Namespace(") with ("N"%char :: str "amespace(").
  rewrite replace_leading, replace_absent.
  - change (str "" ++ ?x) with x. cbn [app].
    change (str ")") with [")"%char]. change (str "") with (@nil ascii).
    rewrite replace_char_by_nothing, filter_app.
    rewrite filter_join.
    + cbn [filter Ascii.eqb Bool.eqb negb andb]. rewrite app_nil_r.
      apply (split_join ","%char " "%char); [discriminate | exact Hne |].
      intros p Hp. apply Hentry, Hp.
    + reflexivity.
    + intros p Hp. apply filter_absent_char, Hentry, Hp.
  - apply occurs_snoc; [discriminate | exact Hmarker].
Qed.

(** A line ends at the first newline. *)
Lemma split_at_newline (line rest : text) :
  occurs [newline] line = false ->
  split_from [newline] 0 (line ++ [newline] ++ rest) =
  line :: split_from [newline] 0 rest.
Proof.
  induction line as [| c line IH]; intros H.
  - cbn [app split_from startswith List.length Nat.sub].
    rewrite Ascii.eqb_refl. reflexivity.
  - cbn [occurs startswith] in H. apply orb_false_iff in H as [Hhere Hlater].
    change ((c :: line) ++ [newline] ++ rest)
      with (c :: (line ++ [newline] ++ rest)).
    cbn [split_from startswith]. rewrite Hhere, (IH Hlater). reflexivity.
Qed.

(** The lines of a report are its entries, then the lines of the scores
    block. *)
Lemma report_of_lines (entries : list text) (scores : text) :
  (forall e, In e entries -> occurs [newline] e = false) ->
  split_from [newline] 0 (report_of entries scores) =
  entries ++ split_from [newline] 0 scores.
Proof.
  unfold report_of.
  induction entries as [| e entries IH]; intros Hall; [reflexivity |].
  cbn [flat_map]. rewrite <- !app_assoc.
  rewrite split_at_newline by (apply Hall; left; reflexivity).
  rewrite IH by (intros x Hx; apply Hall; right; exact Hx).
  reflexivity.
Qed.

(** C8, amended. [write_text_report] first opens the named file for
    writing and raises [OSError], writing nothing, when that fails.  When
    it succeeds and the namespace has at least one entry, the text
    [Namespace(] occurs only as the leading marker and no entry contains a
    closing parenthesis, the separator [, ] or a newline, the file named
    [fn] holds exactly one line per entry followed by the scores string
    verbatim, in that order. *)
Theorem report_has_one_line_per_entry
        (fn : text) (entries : list text) (scores : text) (fs : filesystem) :
  entries <> [] ->
  occurs (str "Namespace(") (join (str ", ") entries) = false ->
  forallb plain_entry entries = true ->
  (can_open_w fs fn = false ->
   write_text_report fn (namespace_str entries) scores fs = Raise OSError)
  /\ (can_open_w fs fn = true ->
      exists fs' : filesystem,
        write_text_report fn (namespace_str entries) scores fs = Ok fs'
        /\ content fs' fn = Some (report_of entries scores)
        /\ split_from [newline] 0 (report_of entries scores) =
           entries ++ split_from [newline] 0 scores).
Proof.
  intros Hne Hmarker Hall.
  assert (Hentry : forall e, In e entries ->
                     occurs (str ")") e = false
                     /\ occurs (str ", ") e = false
                     /\ occurs [newline] e = false).
  { intros e He. rewrite forallb_forall in Hall.
    specialize (Hall e He). unfold plain_entry in Hall.
    apply andb_true_iff in Hall as [Hall H3].
    apply andb_true_iff in Hall as [H1 H2].
    apply negb_true_iff in H1, H2, H3. repeat split; assumption. }
  split; [apply write_text_report_fails |].
  intros Hopen.
  destruct (write_text_report_pieces fn (namespace_str entries) scores fs
              Hopen) as (fs' & Hrun & Hcontent).
  exists fs'. split; [exact Hrun |]. split.
  - assert (Hentry2 : forall e, In e entries ->
                        occurs (str ")") e = false
                        /\ occurs (str ", ") e = false)
      by (intros e He; destruct (Hentry e He) as (H1 & H2 & _);
          split; assumption).
    rewrite Hcontent, namespace_str_pieces by assumption. reflexivity.
  - apply report_of_lines. intros e He. apply (Hentry e He).
Qed.

End ReportFacts.

Lemma report_has_one_line_per_entry_witness :
  (can_open_w no_files (str "report.txt") = false ->
   Report.write_text_report (str "report.txt")
     (Report.namespace_str [str "gpu=-1"; str "rnn_type='GRU'"])
     (str "F1=90.0") no_files = Raise OSError)
  /\ (can_open_w no_files (str "report.txt") = true ->
      exists fs' : filesystem,
        Report.write_text_report (str "report.txt")
          (Report.namespace_str [str "gpu=-1"; str "rnn_type='GRU'"])
          (str "F1=90.0") no_files = Ok fs'
        /\ content fs' (str "report.txt") =
           Some (Report.report_of [str "gpu=-1"; str "rnn_type='GRU'"]
                                  (str "F1=90.0"))
        /\ split_from [newline] 0
             (Report.report_of [str "gpu=-1"; str "rnn_type='GRU'"]
                               (str "F1=90.0")) =
           [str "gpu=-1"; str "rnn_type='GRU'"]
           ++ split_from [newline] 0 (str "F1=90.0")).
Proof.
  apply (report_has_one_line_per_entry (str "report.txt")
           [str "gpu=-1"; str "rnn_type='GRU'"] (str "F1=90.0") no_files).
  - discriminate.
  - reflexivity.
  - reflexivity.
Defined.

(** C8 as stated fails when the printed value of an entry contains the
    separator: the single entry [seeds=[1, 2]] is written as two lines. *)
Lemma list_valued_entry_is_split :
  exists fs' : filesystem,
    Report.write_text_report (str "report.txt")
      (Report.namespace_str [str "seeds=[1, 2]"]) (str "F1=90.0") no_files
    = Ok fs'
    /\ content fs' (str "report.txt") =
       Some (str "seeds=[1" ++ [newline] ++ str "2]" ++ [newline]
             ++ str "F1=90.0")
    /\ content fs' (str "report.txt") <>
       Some (Report.report_of [str "seeds=[1, 2]"] (str "F1=90.0")).
Proof.
  eexists. split; [reflexivity |]. split; [reflexivity | discriminate].
Qed.

(** A namespace without entries still gets one (empty) line. *)
Lemma empty_namespace_writes_a_line :
  exists fs' : filesystem,
    Report.write_text_report (str "report.txt") (Report.namespace_str [])
      (str "F1=90.0") no_files = Ok fs'
    /\ content fs' (str "report.txt") = Some (newline :: str "F1=90.0").
Proof.
  eexists. split; reflexivity.
Qed.

(** In a file system that refuses the file, nothing is written. *)
Lemma unwritable_report_raises :
  Report.write_text_report (str "no_such_dir/report.txt")
    (Report.namespace_str [str "gpu=-1"]) (str "F1=90.0") read_only =
  Raise OSError.
Proof. reflexivity. Qed.

(** ** The training loss *)

Section LossFacts.
Import Tagger.

Variable states_num : nat.
Variable sos_idx : nat.
Variable transition : nat -> nat -> R.
Variable initial_score : nat -> R.

Local Abbreviation log_sum_exp := (log_sum_exp states_num).
Local Abbreviation forward := (forward states_num transition).
Local Abbreviation gold_path_score := (gold_path_score transition).
Local Abbreviation log_partition :=
  (log_partition states_num transition initial_score).

Local Open Scope R_scope.

Lemma ln_monotone (x y : R) : 0 < x -> x <= y -> ln x <= ln y.
Proof.
  intros Hx [Hlt | ->]; [| apply Rle_refl].
  left. apply ln_increasing; assumption.
Qed.

(** One term of a sum of non-negative numbers is below the sum. *)
Lemma term_le_sum (l : list R) (x : R) :
  Forall (fun y => 0 <= y) l -> In x l -> x <= sum_R l.
Proof.
  induction 1 as [| y l Hy Hl IH]; intros Hin; [destruct Hin |].
  assert (Hsum : 0 <= sum_R l).
  { clear IH Hin. induction Hl as [| z l Hz _ IHl]; cbn [sum_R fold_right].
    - apply Rle_refl.
    - fold (sum_R l). lra. }
  cbn [sum_R fold_right]. fold (sum_R l).
  destruct Hin as [-> | Hin]; [lra |].
  specialize (IH Hin). lra.
Qed.

(** The score of one state is below the log-sum-exp over all states. *)
Lemma log_sum_exp_bound (score : nat -> R) (j : nat) :
  (j < states_num)%nat -> score j <= log_sum_exp score.
Proof.
  intros Hj. unfold Tagger.log_sum_exp.
  rewrite <- (ln_exp (score j)) at 1.
  apply ln_monotone; [apply exp_pos |].
  apply term_le_sum.
  - apply Forall_forall. intros y Hy.
    apply in_map_iff in Hy as (i & <- & _). left. apply exp_pos.
  - apply in_map_iff. exists j. split; [reflexivity |].
    apply in_seq. lia.
Qed.

(** The invariant of the forward recursion: the running score of the
    last gold tag plus the gold score still to come stays below the log
    partition. *)
Lemma forward_dominates_gold
      (features : list feature_vector) (gold_tags : list nat)
      (mask : list bool) (score : nat -> R) (prev : nat) :
  List.length features = List.length gold_tags ->
  List.length features = List.length mask ->
  (prev < states_num)%nat ->
  tags_in_range states_num gold_tags mask = true ->
  score prev + gold_path_score prev features gold_tags mask
  <= log_sum_exp (forward score features mask).
Proof.
  revert gold_tags mask score prev.
  induction features as [| f features IH];
    intros [| g gold_tags] [| m mask] score prev Htags Hmask Hprev Hrange;
    try discriminate.
  - cbn [Tagger.gold_path_score Tagger.forward].
    pose proof (log_sum_exp_bound score prev Hprev). lra.
  - cbn [List.length] in Htags, Hmask.
    injection Htags as Htags. injection Hmask as Hmask.
    cbn [tags_in_range] in Hrange.
    apply andb_true_iff in Hrange as [Hg Hrange].
    cbn [Tagger.gold_path_score Tagger.forward]. cbv zeta.
    destruct m; cbn [negb orb] in Hg.
    + apply Nat.ltb_lt in Hg.
      set (updated := fun j : nat =>
             if true
             then log_sum_exp (fun i => score i + transition i j + f j)
             else score j).
      pose proof (IH gold_tags mask updated g Htags Hmask Hg Hrange) as Hrest.
      pose proof (log_sum_exp_bound
                    (fun i => score i + transition i g + f g) prev Hprev)
        as Hstep.
      cbv beta in Hstep.
      change (updated g)
        with (log_sum_exp (fun i => score i + transition i g + f g)) in Hrest.
      lra.
    + set (kept := fun j : nat =>
             if false
             then log_sum_exp (fun i => score i + transition i j + f j)
             else score j).
      exact (IH gold_tags mask kept prev Htags Hmask Hprev Hrange).
Qed.

Lemma same_shape_cons (X Y : Type) (x : list X) (a : list (list X))
      (y : list Y) (b : list (list Y)) :
  same_shape (x :: a) (y :: b) = true ->
  List.length x = List.length y /\ same_shape a b = true.
Proof.
  cbn [same_shape]. intros H. apply andb_true_iff in H as [Hlen Hrest].
  apply Nat.eqb_eq in Hlen. split; assumption.
Qed.

(** Sequence by sequence, the gold path score is below the log
    partition. *)
Lemma batch_gold_below_partition
      (features : list (list feature_vector)) (targets : list (list nat))
      (mask : list (list bool)) :
  (sos_idx < states_num)%nat ->
  initial_score sos_idx = 0 ->
  same_shape features targets = true ->
  same_shape features mask = true ->
  forallb (fun p => tags_in_range states_num (fst p) (snd p))
          (combine targets mask) = true ->
  Forall2 Rle (map3 (gold_path_score sos_idx) features targets mask)
              (map2 log_partition features mask).
Proof.
  intros Hsos Hinit. revert targets mask.
  induction features as [| f features IH];
    intros [| t targets] [| m mask] Htargets Hmask Hrange;
    try discriminate; [constructor |].
  apply same_shape_cons in Htargets as [Hft Htargets].
  apply same_shape_cons in Hmask as [Hfm Hmask].
  cbn [combine forallb fst snd] in Hrange.
  apply andb_true_iff in Hrange as [Hhere Hrange].
  cbn [map3 map2]. constructor; [| apply IH; assumption].
  pose proof (forward_dominates_gold f t m initial_score sos_idx
                Hft Hfm Hsos Hhere) as Hdom.
  rewrite Hinit in Hdom. unfold Tagger.log_partition. lra.
Qed.

Lemma sum_of_differences (num den : list R) :
  Forall2 Rle num den -> sum_R (map2 Rminus num den) <= 0.
Proof.
  induction 1 as [| x y num den Hxy _ IH]; cbn [map2 sum_R fold_right].
  - apply Rle_refl.
  - fold (sum_R (map2 Rminus num den)). lra.
Qed.

Lemma negated_mean_nonneg (v : list R) : sum_R v <= 0 -> 0 <= - mean v.
Proof.
  intros Hsum. unfold mean.
  destruct v as [| x v].
  - cbn [sum_R fold_right]. unfold Rdiv. rewrite Rmult_0_l. lra.
  - assert (Hn : 0 < INR (List.length (x :: v)))
      by (apply lt_0_INR; cbn [List.length]; lia).
    assert (Hinv : 0 < / INR (List.length (x :: v)))
      by (apply Rinv_0_lt_compat, Hn).
    unfold Rdiv.
    pose proof (Rmult_le_compat_r _ _ _ (Rlt_le _ _ Hinv) Hsum) as Hle.
    rewrite Rmult_0_l in Hle. lra.
Qed.

(** C4. For a well-shaped, non-empty batch whose gold tags at valid
    positions are states, with the start tag a state of initial score 0:
    numerator and denominator are returned, the gold path score of every
    sequence is below or equal to its log partition, and the loss of
    [get_loss] is non-negative. *)
Theorem gold_path_below_log_partition
        (features : list (list feature_vector)) (targets : list (list nat))
        (mask : list (list bool)) :
  (sos_idx < states_num)%nat ->
  initial_score sos_idx = 0 ->
  check_batch features targets = Ok tt ->
  check_batch features mask = Ok tt ->
  forallb (fun p => tags_in_range states_num (fst p) (snd p))
          (combine targets mask) = true ->
  exists (num den : list R) (loss : R),
    numerator sos_idx transition features targets mask = Ok num
    /\ denominator states_num transition initial_score features mask = Ok den
    /\ List.length num = List.length features
    /\ Forall2 Rle num den
    /\ get_loss states_num sos_idx transition initial_score
                features targets mask = Ok loss
    /\ 0 <= loss.
Proof.
  intros Hsos Hinit Htargets Hmask Hrange.
  assert (Hshape : forall (Y : Type) (b : list (list Y)),
             check_batch features b = Ok tt -> same_shape features b = true).
  { intros Y b0 H. unfold check_batch in H.
    destruct (same_shape features b0); [reflexivity | discriminate]. }
  pose proof (batch_gold_below_partition features targets mask Hsos Hinit
                (Hshape _ _ Htargets) (Hshape _ _ Hmask) Hrange) as Hle.
  unfold get_loss, numerator, denominator.
  rewrite Htargets, Hmask. cbn [bind].
  do 3 eexists. repeat split; try reflexivity.
  - clear Hle Hrange. pose proof (Hshape _ _ Htargets) as H1.
    pose proof (Hshape _ _ Hmask) as H2. clear Htargets Hmask Hshape.
    revert targets mask H1 H2.
    induction features as [| f features IH];
      intros [| t targets] [| m mask] H1 H2; try discriminate;
      [reflexivity |].
    apply same_shape_cons in H1 as [_ H1].
    apply same_shape_cons in H2 as [_ H2].
    cbn [map3 List.length]. f_equal. apply IH; assumption.
  - exact Hle.
  - apply negated_mean_nonneg, sum_of_differences, Hle.
Qed.

End LossFacts.

Lemma gold_path_below_log_partition_witness :
  exists (num den : list R) (loss : R),
    Tagger.numerator 2 (fun _ _ => 0%R)
      [[fun _ => 1%R; fun _ => 0%R]] [[1; 0]] [[true; false]] = Ok num
    /\ Tagger.denominator 3 (fun _ _ => 0%R)
         (fun i => if i =? 2 then 0%R else (-9999)%R)
         [[fun _ => 1%R; fun _ => 0%R]] [[true; false]] = Ok den
    /\ List.length num = List.length [[fun _ : nat => 1%R; fun _ => 0%R]]
    /\ Forall2 Rle num den
    /\ Tagger.get_loss 3 2 (fun _ _ => 0%R)
         (fun i => if i =? 2 then 0%R else (-9999)%R)
         [[fun _ => 1%R; fun _ => 0%R]] [[1; 0]] [[true; false]] = Ok loss
    /\ (0 <= loss)%R.
Proof.
  apply (gold_path_below_log_partition 3 2 (fun _ _ => 0%R)
           (fun i => if i =? 2 then 0%R else (-9999)%R)
           [[fun _ => 1%R; fun _ => 0%R]] [[1; 0]] [[true; false]]).
  - lia.
  - reflexivity.
  - reflexivity.
  - reflexivity.
  - reflexivity.
Defined.

(** ** Sub-batches that cover the input *)

Section BatchingFacts.
Import Utils Tagger.

Variable Word : Type.
Variable Tag : Type.
Variable decode_sequence : list Word -> list nat.
Variable idx2item : nat -> Tag.

Local Abbreviation tags_of := (tags_of decode_sequence idx2item).

Lemma firstn_plus (X : Type) (n m : nat) (l : list X) :
  firstn (n + m) l = firstn n l ++ firstn m (skipn n l).
Proof.
  revert l; induction n as [| n IH]; intros l; [reflexivity |].
  destruct l as [| x l]; cbn [Nat.add firstn skipn app].
  - rewrite firstn_nil. reflexivity.
  - rewrite IH. reflexivity.
Qed.

Lemma slice_in_range (X : Type) (l : list X) (i j : nat) :
  i <= j -> j <= List.length l ->
  slice l (Z.of_nat i) (Z.of_nat j) = firstn (j - i) (skipn i l).
Proof.
  intros Hij Hj. unfold slice, clamp_index.
  destruct (Z.ltb_spec (Z.of_nat i) 0) as [Hneg | _]; [lia |].
  destruct (Z.ltb_spec (Z.of_nat j) 0) as [Hneg | _]; [lia |].
  rewrite !Z.min_l by lia.
  rewrite <- Nat2Z.inj_sub, !Nat2Z.id by exact Hij. reflexivity.
Qed.

Lemma nonempty_of_length (X : Type) (l : list X) :
  0 < List.length l -> l <> [].
Proof.
  intros H ->. cbn [List.length] in H. lia.
Qed.

(** The tags of one slice, as the loop body computes them. *)
Lemma idx2items_decoded (word_sequences : list (list Word)) :
  idx2items idx2item (map decode_sequence word_sequences) =
  map tags_of word_sequences.
Proof.
  unfold idx2items. rewrite map_map. reflexivity.
Qed.

(** When the input holds at least one full sub-batch, the sub-batches
    cover it and the loop returns the tags of every sequence, in order:
    the same as a single call. *)
Lemma full_batches_agree_with_single_call
      (self_batch_size : Z) (word_sequences : list (list Word))
      (batch_size : Z) :
  let size := effective_batch_size self_batch_size batch_size in
  (0 < size)%Z ->
  (size <= Z.of_nat (List.length word_sequences))%Z ->
  predict_tags_from_words decode_sequence idx2item self_batch_size
    word_sequences batch_size = Ok (map tags_of word_sequences)
  /\ predict_tags_single_call decode_sequence idx2item word_sequences =
     Ok (map tags_of word_sequences).
Proof.
  intros size Hpos Hfull.
  split;
    [| apply predict_tags_single_call_ok, nonempty_of_length; lia].
  set (L := List.length word_sequences) in *.
  set (B := Z.to_nat size).
  assert (HB : size = Z.of_nat B) by (unfold B; lia).
  assert (HB0 : B <> 0) by lia.
  assert (Hk : exists k', L / B = S k').
  { destruct (L / B) eqn:E; [| eexists; reflexivity].
    apply Nat.div_small_iff in E; [lia | exact HB0]. }
  destruct Hk as [k' Hk].
  assert (HkB : S k' * B <= L)
    by (rewrite <- Hk, Nat.mul_comm; apply Nat.Div0.mul_div_le).
  unfold Tagger.predict_tags_from_words.
  fold (effective_batch_size self_batch_size batch_size). fold size. fold L.
  unfold floor_div. destruct (Z.eqb_spec size 0) as [E | _]; [lia |].
  cbn [bind].
  replace (Z.of_nat L / size)%Z with (Z.of_nat (S k'))
    by (rewrite HB, <- Nat2Z.inj_div, Hk; reflexivity).
  unfold range. rewrite Nat2Z.id, seq_S, map_app, fold_left_app.
  cbn [Nat.add map fold_left].
  match goal with
  | |- context [fold_left ?F _ _] => set (body := F)
  end.
  assert (Hinv : forall j, j <= k' ->
             fold_left body (map Z.of_nat (seq 0 j)) (Ok []) =
             Ok (map tags_of (firstn (j * B) word_sequences))).
  { induction j as [| j IH]; intros Hj; [reflexivity |].
    rewrite seq_S, map_app, fold_left_app, IH by lia.
    cbn [Nat.add map fold_left]. unfold body at 1. cbn [bind].
    destruct (Z.ltb_spec (Z.of_nat j) (Z.of_nat (S k') - 1)) as [_ | Hge];
      [| lia].
    replace (Z.of_nat j * size)%Z with (Z.of_nat (j * B)) by lia.
    replace ((Z.of_nat j + 1) * size)%Z with (Z.of_nat (j * B + B)) by lia.
    rewrite slice_in_range by (fold L; nia).
    replace (j * B + B - j * B) with B by lia.
    rewrite predict_idx_from_words_ok
      by (apply nonempty_of_length;
          rewrite length_firstn, length_skipn; fold L; nia).
    cbn [bind]. rewrite idx2items_decoded.
    rewrite <- map_app, <- firstn_plus.
    replace (S j * B) with (j * B + B) by lia. reflexivity. }
  rewrite (Hinv k') by lia.
  unfold body. cbn [bind].
  destruct (Z.ltb_spec (Z.of_nat k') (Z.of_nat (S k') - 1)) as [Hlt | _];
    [lia |].
  replace (Z.of_nat k' * size)%Z with (Z.of_nat (k' * B)) by lia.
  rewrite slice_in_range by (fold L; lia).
  rewrite firstn_all2 by (rewrite length_skipn; fold L; lia).
  rewrite predict_idx_from_words_ok
    by (apply nonempty_of_length; rewrite length_skipn; fold L; nia).
  cbn [bind]. rewrite idx2items_decoded.
  rewrite <- map_app, firstn_skipn. reflexivity.
Qed.

End BatchingFacts.

(** ** Worked examples *)

(** Two gold spans, one of them predicted: TP = 1, FN = 1, FP = 0,
    precision 100, recall 50 and F1 = 200/3. *)
Example one_of_two_spans_found :
  Evaluator.get_f1_from_components_sequences exact_match [[1; 2]] [[1]] tt =
  Ok ((2 # 3) * 100, (1 # 1) * 100, (1 # 2) * 100, (1, 0, 1)%Z)%Q.
Proof. reflexivity. Qed.

(** Five sequences in sub-batches of two: the last sub-batch takes the
    remaining three, and the tags come back in input order. *)
Example five_sequences_in_batches_of_two :
  Tagger.predict_tags_from_words (fun ws : list nat => ws) (fun i : nat => i)
    1 [[1; 2]; [3; 4; 5]; []; [6; 7]; [8; 9; 10]] 2 =
  Ok [[1; 2]; [3; 4; 5]; []; [6; 7]; [8; 9; 10]].
Proof. reflexivity. Qed.

(** Sorting by length keeps the input order of equal lengths. *)
Example argsort_is_stable :
  Utils.argsort_sequences_by_lens [[1; 2]; [3; 4; 5]; []; [6; 7]; [8; 9; 10]] =
  ([1; 4; 0; 3; 2], [2; 0; 4; 3; 1]).
Proof. reflexivity. Qed.

(** A batch of zero sequences is refused by the decoding. *)
Example empty_batch_is_refused :
  Tagger.predict_idx_from_words (fun ws : list nat => ws) [] =
  Raise EmptyBatch.
Proof. reflexivity. Qed.

(** The same scores as doubles: F1 is 66.66666666666666. *)
Example one_of_two_spans_found_double :
  get_f1_from_components_sequences_double exact_match [[1; 2]] [[1]] tt =
  Ok (S754_finite false 4691249611844266 (-46),
      S754_finite false 7036874417766400 (-46),
      S754_finite false 7036874417766400 (-47),
      (1, 0, 1)%Z).
Proof. vm_compute. reflexivity. Qed.

(** * Further properties *)

(** ** Counters and rates of the evaluator *)

Section EvaluatorMore.
Import Evaluator.

Variable TagComponent : Type.
Variable Ratio : Type.
Variable is_equal : TagComponent -> TagComponent -> Ratio -> bool.
Variable r : Ratio.

Local Abbreviation count_sequences := (count_sequences is_equal r).
Local Abbreviation gold_is_matched := (gold_is_matched is_equal r).
Local Abbreviation predicted_is_matched := (predicted_is_matched is_equal r).
Local Abbreviation spec_TP := (spec_TP is_equal r).
Local Abbreviation spec_FN := (spec_FN is_equal r).
Local Abbreviation spec_FP := (spec_FP is_equal r).

Local Open Scope Z_scope.

Lemma count_if_le_length (A : Type) (f : A -> bool) (l : list A) :
  count_if f l <= Z.of_nat (List.length l).
Proof.
  pose proof (count_if_split A f l).
  pose proof (count_if_nonneg A (fun x => negb (f x)) l). lia.
Qed.

Lemma spec_counts_bounds (gold pred : list (list TagComponent)) :
  spec_TP gold pred + spec_FN gold pred =
  Z.of_nat (List.length (scored_gold gold pred))
  /\ 0 <= spec_TP gold pred
  /\ 0 <= spec_FN gold pred
  /\ 0 <= spec_FP gold pred
  /\ spec_FP gold pred <= Z.of_nat (List.length (scored_pred gold pred)).
Proof.
  unfold scored_gold, scored_pred.
  revert pred; induction gold as [| g gold IH]; intros pred.
  - cbn. lia.
  - destruct pred as [| p pred]; [cbn; lia |].
    specialize (IH pred).
    cbn [Evaluator.spec_TP Evaluator.spec_FN Evaluator.spec_FP
         combine map fst snd List.concat].
    rewrite !length_app, !Nat2Z.inj_add.
    pose proof (count_if_split _ (gold_is_matched p) g).
    pose proof (count_if_nonneg _ (gold_is_matched p) g).
    pose proof (count_if_nonneg _ (fun x => negb (gold_is_matched p x)) g).
    pose proof (count_if_nonneg _
                  (fun x => negb (predicted_is_matched g x)) p).
    pose proof (count_if_le_length _
                  (fun x => negb (predicted_is_matched g x)) p).
    lia.
Qed.

(** X1. Every gold span of a scored sequence pair is counted exactly once, as
    a TP or as an FN; FP never exceeds the number of predicted spans of
    the scored pairs; no counter is negative. *)
Theorem counters_partition_gold_spans (gold pred : list (list TagComponent)) :
  let c := count_sequences gold pred in
  TP c + FN c = Z.of_nat (List.length (scored_gold gold pred))
  /\ 0 <= TP c /\ 0 <= FN c /\ 0 <= FP c
  /\ FP c <= Z.of_nat (List.length (scored_pred gold pred)).
Proof.
  cbv zeta. rewrite count_sequences_spec. cbn [TP FN FP].
  apply spec_counts_bounds.
Qed.

(** A rate [100 * a / max(d, 1)] with [0 <= a <= d] is a percentage. *)
Lemma rate_is_percentage (a d : Z) :
  0 <= a -> a <= d ->
  (0 <= inject_Z a / inject_Z (Z.max d 1) * 100 <= 100)%Q.
Proof.
  intros Ha Had.
  assert (Hd : 0 < Z.max d 1) by lia.
  destruct (Z.max d 1) as [| m | m] eqn:E; try lia.
  assert (Ham : a <= Z.pos m) by lia.
  unfold Qle, Qdiv, Qmult, Qinv, inject_Z. cbn. split; nia.
Qed.

(** X2. The three rates are percentages between 0 and 100, for every
    input. *)
Theorem rates_are_percentages (gold pred : list (list TagComponent)) :
  exists (F1 Precision Recall : Q) (c : Z * Z * Z),
    get_f1_from_components_sequences is_equal gold pred r =
    Ok (F1, Precision, Recall, c)
    /\ (0 <= Precision <= 100)%Q
    /\ (0 <= Recall <= 100)%Q
    /\ (0 <= F1 <= 100)%Q.
Proof.
  rewrite get_f1_total. cbv zeta.
  destruct (spec_counts_bounds gold pred) as (_ & Htp & Hfn & Hfp & _).
  do 4 eexists. split; [reflexivity |].
  repeat apply conj; apply rate_is_percentage; lia.
Qed.

(** X5. Exchanging the roles of the two corpora exchanges FP and FN: both
    passes ask the same question, whether [p.is_equal(g, ratio)] holds for
    some span [p] of the other side. *)
Theorem swapping_corpora_swaps_fp_fn (gold pred : list (list TagComponent)) :
  FN (count_sequences gold pred) = FP (count_sequences pred gold)
  /\ FP (count_sequences gold pred) = FN (count_sequences pred gold).
Proof.
  rewrite !count_sequences_spec. cbn [TP FN FP].
  revert pred; induction gold as [| g gold IH]; intros [| p pred];
    try (split; reflexivity).
  destruct (IH pred) as [IH1 IH2].
  cbn [Evaluator.spec_FN Evaluator.spec_FP].
  rewrite IH1, IH2. split; reflexivity.
Qed.

Lemma combine_app_same_length (A B : Type) (l1 l2 : list A) (k1 k2 : list B) :
  List.length l1 = List.length k1 ->
  combine (l1 ++ l2) (k1 ++ k2) = combine l1 k1 ++ combine l2 k2.
Proof.
  revert k1; induction l1 as [| x l1 IH]; intros [| y k1] Hlen;
    try discriminate; [reflexivity |].
  cbn [app combine]. rewrite IH by (injection Hlen as E; exact E).
  reflexivity.
Qed.

(** X6. The counters accumulate over the corpus: scoring two corpora one
    after the other adds their counters, provided the first gold and
    predicted parts have the same number of sequences. *)
Theorem counters_add_over_corpora
        (gold1 gold2 pred1 pred2 : list (list TagComponent)) :
  List.length gold1 = List.length pred1 ->
  let c := count_sequences (gold1 ++ gold2) (pred1 ++ pred2) in
  let c1 := count_sequences gold1 pred1 in
  let c2 := count_sequences gold2 pred2 in
  TP c = TP c1 + TP c2 /\ FN c = FN c1 + FN c2 /\ FP c = FP c1 + FP c2.
Proof.
  intros Hlen. cbv zeta.
  unfold Evaluator.count_sequences at 1 4 7.
  rewrite combine_app_same_length by exact Hlen.
  rewrite fold_left_app.
  fold (count_sequences gold1 pred1).
  rewrite !(count_loop_spec _ _ is_equal r gold2 pred2).
  rewrite !(count_sequences_spec _ _ is_equal r gold2 pred2).
  cbn [TP FN FP]. repeat split; reflexivity.
Qed.

Lemma count_if_perm (A : Type) (f : A -> bool) (l l' : list A) :
  Permutation l l' -> count_if f l = count_if f l'.
Proof.
  induction 1 as [| x l l' _ IH | x y l | l l' l'' _ IH1 _ IH2].
  - reflexivity.
  - rewrite !count_if_cons, IH. reflexivity.
  - rewrite !count_if_cons. lia.
  - congruence.
Qed.

Lemma existsb_perm (A : Type) (f : A -> bool) (l l' : list A) :
  Permutation l l' -> existsb f l = existsb f l'.
Proof.
  induction 1 as [| x l l' _ IH | x y l | l l' l'' _ IH1 _ IH2].
  - reflexivity.
  - cbn [existsb]. rewrite IH. reflexivity.
  - cbn [existsb]. destruct (f x), (f y); reflexivity.
  - congruence.
Qed.

Lemma count_if_ext (A : Type) (f g : A -> bool) (l : list A) :
  (forall x, f x = g x) -> count_if f l = count_if g l.
Proof.
  intros H. unfold count_if. f_equal. f_equal.
  apply filter_ext. exact H.
Qed.

(** X7. The order of the spans inside a sequence does not matter: reordering
    the gold spans or the predicted spans of any sequence leaves the three
    counters unchanged. *)
Theorem span_order_is_irrelevant
        (gold gold' pred pred' : list (list TagComponent)) :
  Forall2 (@Permutation TagComponent) gold gold' ->
  Forall2 (@Permutation TagComponent) pred pred' ->
  count_sequences gold pred = count_sequences gold' pred'.
Proof.
  intros Hg. rewrite !count_sequences_spec.
  revert pred pred'.
  induction Hg as [| g g' gold gold' Hperm _ IH]; intros pred pred' Hp.
  - destruct Hp; reflexivity.
  - destruct Hp as [| p p' pred pred' Hpp Hp]; [reflexivity |].
    specialize (IH pred pred' Hp).
    injection IH as ITP IFN IFP.
    cbn [Evaluator.spec_TP Evaluator.spec_FN Evaluator.spec_FP].
    rewrite ITP, IFN, IFP.
    rewrite (count_if_perm _ (gold_is_matched p) g g' Hperm).
    rewrite (count_if_perm _ (fun x => negb (gold_is_matched p x)) g g' Hperm).
    rewrite (count_if_perm _ (fun x => negb (predicted_is_matched g x))
               p p' Hpp).
    rewrite (count_if_ext _ (gold_is_matched p) (gold_is_matched p') g').
    + rewrite (count_if_ext _ (fun x => negb (gold_is_matched p x))
                 (fun x => negb (gold_is_matched p' x)) g').
      * rewrite (count_if_ext _
                   (fun x => negb (predicted_is_matched g x))
                   (fun x => negb (predicted_is_matched g' x)) p').
        -- reflexivity.
        -- intros x. f_equal. apply existsb_perm, Hperm.
      * intros x. f_equal. apply existsb_perm, Hpp.
    + intros x. apply existsb_perm, Hpp.
Qed.

Lemma count_if_never (A : Type) (f : A -> bool) (l : list A) :
  forallb (fun x => negb (f x)) l = true -> count_if f l = 0.
Proof.
  intros H. pose proof (count_if_split A f l) as Hs.
  rewrite (count_if_all A (fun x => negb (f x)) l H) in Hs. lia.
Qed.

(** X8. When nothing matches, TP is 0, every gold span of the scored pairs is
    an FN, every predicted span is an FP, and the three rates are 0. *)
Theorem disjoint_corpora_score_zero (gold pred : list (list TagComponent)) :
  nothing_matches is_equal r gold pred = true ->
  exists F1 Precision Recall : Q,
    get_f1_from_components_sequences is_equal gold pred r =
    Ok (F1, Precision, Recall,
        (0, Z.of_nat (List.length (scored_pred gold pred)),
         Z.of_nat (List.length (scored_gold gold pred))))
    /\ (F1 == 0)%Q /\ (Precision == 0)%Q /\ (Recall == 0)%Q.
Proof.
  intros H.
  assert (Hcounts :
            spec_TP gold pred = 0
            /\ spec_FP gold pred =
               Z.of_nat (List.length (scored_pred gold pred))
            /\ spec_FN gold pred =
               Z.of_nat (List.length (scored_gold gold pred))).
  { unfold nothing_matches, scored_pred, scored_gold in *.
    revert pred H; induction gold as [| g gold IH]; intros [| p pred] H;
      try (repeat split; reflexivity).
    cbn [combine forallb fst snd] in H.
    apply andb_true_iff in H as [Hhere Hrest].
    destruct (IH pred Hrest) as (ITP & IFP & IFN).
    rewrite forallb_forall in Hhere.
    assert (Hno : forall x y, In x g -> In y p ->
                    is_equal y x r = false /\ is_equal x y r = false).
    { intros x y Hx Hy. specialize (Hhere x Hx).
      rewrite forallb_forall in Hhere. specialize (Hhere y Hy).
      apply andb_true_iff in Hhere as [H1 H2].
      apply negb_true_iff in H1, H2. split; assumption. }
    assert (Hgold : forallb (fun x => negb (gold_is_matched p x)) g = true).
    { apply forallb_forall. intros x Hx. apply negb_true_iff.
      unfold Evaluator.gold_is_matched.
      destruct (existsb (fun y => is_equal y x r) p) eqn:E; [| reflexivity].
      apply existsb_exists in E as (y & Hy & Hyx).
      destruct (Hno x y Hx Hy) as [H1 _]. congruence. }
    assert (Hpred : forallb (fun y => negb (predicted_is_matched g y)) p
                    = true).
    { apply forallb_forall. intros y Hy. apply negb_true_iff.
      unfold Evaluator.predicted_is_matched.
      destruct (existsb (fun x => is_equal x y r) g) eqn:E; [| reflexivity].
      apply existsb_exists in E as (x & Hx & Hxy).
      destruct (Hno x y Hx Hy) as [_ H2]. congruence. }
    cbn [Evaluator.spec_TP Evaluator.spec_FP Evaluator.spec_FN
         combine map fst snd List.concat].
    rewrite ITP, IFP, IFN, !length_app, !Nat2Z.inj_add.
    rewrite (count_if_never _ _ _ Hgold).
    rewrite (count_if_all _ _ _ Hgold), (count_if_all _ _ _ Hpred).
    repeat split; lia. }
  destruct Hcounts as (HTP & HFP & HFN).
  rewrite get_f1_total. cbv zeta. rewrite HTP, HFP, HFN.
  do 3 eexists. split; [reflexivity |].
  repeat split; reflexivity.
Qed.

(** X9. Predicting more can only help recall: when every sequence keeps its
    predicted spans and possibly gains some, TP does not decrease and FN
    does not increase. *)
Theorem more_predictions_keep_true_positives
        (gold pred pred' : list (list TagComponent)) :
  Forall2 (@incl TagComponent) pred pred' ->
  TP (count_sequences gold pred) <= TP (count_sequences gold pred')
  /\ FN (count_sequences gold pred') <= FN (count_sequences gold pred).
Proof.
  intros Hp. rewrite !count_sequences_spec. cbn [TP FN].
  revert gold; induction Hp as [| p p' pred pred' Hincl _ IH]; intros gold.
  - destruct gold; cbn; lia.
  - destruct gold as [| g gold]; [cbn; lia |].
    specialize (IH gold).
    cbn [Evaluator.spec_TP Evaluator.spec_FN].
    assert (Hmono : forall x, gold_is_matched p x = true ->
                              gold_is_matched p' x = true).
    { intros x Hx. unfold Evaluator.gold_is_matched in *.
      apply existsb_exists in Hx as (y & Hy & Hyx).
      apply existsb_exists. exists y. split; [apply Hincl, Hy | exact Hyx]. }
    assert (Hle : count_if (gold_is_matched p) g
                  <= count_if (gold_is_matched p') g).
    { clear IH. induction g as [| x g IHg]; [reflexivity |].
      rewrite !count_if_cons.
      specialize (Hmono x).
      destruct (gold_is_matched p x), (gold_is_matched p' x);
        first [lia | discriminate (Hmono eq_refl)]. }
    pose proof (count_if_split _ (gold_is_matched p) g).
    pose proof (count_if_split _ (gold_is_matched p') g).
    lia.
Qed.

(** X4. F1 is 100 exactly when there is at least one true positive and
    neither a false positive nor a false negative. *)
Theorem f1_is_100_iff_no_error (gold pred : list (list TagComponent)) :
  let c := count_sequences gold pred in
  exists F1 Precision Recall : Q,
    get_f1_from_components_sequences is_equal gold pred r =
    Ok (F1, Precision, Recall, (TP c, FP c, FN c))
    /\ ((F1 == 100)%Q <-> 0 < TP c /\ FP c = 0 /\ FN c = 0).
Proof.
  cbv zeta. rewrite get_f1_total, count_sequences_spec. cbv zeta.
  cbn [TP FN FP].
  destruct (spec_counts_bounds gold pred) as (_ & Htp & Hfn & Hfp & _).
  do 3 eexists. split; [reflexivity |].
  set (tp := spec_TP gold pred) in *. set (fp := spec_FP gold pred) in *.
  set (fn := spec_FN gold pred) in *.
  assert (Hd : 0 < Z.max (2 * tp + fp + fn) 1) by lia.
  destruct (Z.max (2 * tp + fp + fn) 1) as [| m | m] eqn:E; try lia.
  unfold Qeq, Qdiv, Qmult, Qinv, inject_Z. cbn [Qnum Qden].
  rewrite !Z.mul_1_r, !Pos.mul_1_l, !Pos.mul_1_r.
  change (Z.pos (m * 1)) with (Z.pos m * 1). split; intros H; lia.
Qed.

End EvaluatorMore.

(** ** Scoring tag sequences *)

Section F1FromWordsFacts.
Variable TagItem : Type.
Variable TagComponent : Type.
Variable Ratio : Type.
Variable is_equal : TagComponent -> TagComponent -> Ratio -> bool.
Variable extract : list (list TagItem) -> list (list TagComponent).
Variable default_ratio : Ratio.

Local Abbreviation ratio_in_use := (ratio_in_use default_ratio).

(** X10. Scoring a tagging against itself: every extracted span is a TP and
    there is no FP and no FN, as soon as each extracted span [is_equal] to
    itself at the ratio in use. *)
Theorem tagging_scored_against_itself
        (tag_sequences : list (list TagItem))
        (match_alpha_ratio : option Ratio) :
  forallb (fun x => is_equal x x (ratio_in_use match_alpha_ratio))
          (List.concat (extract tag_sequences)) = true ->
  exists F1 Precision Recall : Q,
    get_f1_from_words is_equal extract default_ratio
      tag_sequences tag_sequences match_alpha_ratio =
    Ok (F1, Precision, Recall,
        (Z.of_nat (List.length (List.concat (extract tag_sequences))),
         0%Z, 0%Z)).
Proof.
  intros H. unfold get_f1_from_words.
  fold (ratio_in_use match_alpha_ratio). cbv zeta.
  destruct (identical_corpora_counts _ _ is_equal _ _ H) as (Htp & Hfp & Hfn).
  rewrite get_f1_total. cbv zeta. rewrite Htp, Hfp, Hfn.
  do 3 eexists. reflexivity.
Qed.

End F1FromWordsFacts.

(** ** The report file for every configuration text *)

Section ReportMore.
Import Report.

Lemma split_from_skip (sep skipped s : text) :
  split_from sep (List.length skipped) (skipped ++ s) = split_from sep 0 s.
Proof.
  induction skipped as [| c skipped IH]; [reflexivity |].
  cbn [List.length app split_from]. exact IH.
Qed.

Lemma split_from_nonempty (sep : text) (skip : nat) (s : text) :
  split_from sep skip s <> [].
Proof.
  revert skip; induction s as [| c s IH]; intros skip; [discriminate |].
  cbn [split_from]. destruct skip as [| k]; [| apply IH].
  destruct (startswith sep (c :: s)); [discriminate |].
  unfold cons_head. destruct (split_from sep 0 s); discriminate.
Qed.

Lemma startswith_prefix (old s : text) :
  startswith old s = true -> exists rest, s = old ++ rest.
Proof.
  revert s; induction old as [| a old IH]; intros s H.
  - exists s. reflexivity.
  - destruct s as [| b s]; [discriminate |].
    cbn [startswith] in H. apply andb_true_iff in H as [Hab Hrest].
    apply Ascii.eqb_eq in Hab. subst b.
    destruct (IH s Hrest) as [rest ->]. exists rest. reflexivity.
Qed.

Lemma join_cons_head (sep : text) (c : ascii) (pieces : list text) :
  pieces <> [] -> join sep (cons_head c pieces) = c :: join sep pieces.
Proof.
  destruct pieces as [| p [| q rest]]; intros H; [congruence | |];
    reflexivity.
Qed.

Lemma join_empty_head (sep : text) (pieces : list text) :
  pieces <> [] -> join sep ([] :: pieces) = sep ++ join sep pieces.
Proof.
  destruct pieces as [| p rest]; intros H; [congruence | reflexivity].
Qed.

(** Joining the pieces of a split with the separator gives the text
    back. *)
Lemma join_split_from (a : ascii) (sep s : text) :
  join (a :: sep) (split_from (a :: sep) 0 s) = s.
Proof.
  remember (List.length s) as n eqn:Hn.
  assert (Hle : List.length s <= n) by lia. clear Hn.
  revert s Hle; induction n as [| n IH]; intros s Hle.
  - destruct s; [reflexivity | cbn [List.length] in Hle; lia].
  - destruct s as [| c s]; [reflexivity |].
    cbn [List.length] in Hle. cbn [split_from].
    destruct (startswith (a :: sep) (c :: s)) eqn:E.
    + apply startswith_prefix in E as [rest E].
      cbn [app] in E. injection E as -> ->.
      replace (List.length (a :: sep) - 1) with (List.length sep)
        by (cbn [List.length]; lia).
      rewrite split_from_skip, join_empty_head by apply split_from_nonempty.
      rewrite IH by (rewrite length_app in Hle; lia).
      reflexivity.
    + rewrite join_cons_head by apply split_from_nonempty.
      rewrite IH by lia. reflexivity.
Qed.

Lemma in_join (sep : text) (pieces : list text) (p : text) (x : ascii) :
  In p pieces -> In x p -> In x (join sep pieces).
Proof.
  induction pieces as [| q rest IH]; intros Hp Hx; [destruct Hp |].
  destruct rest as [| q' rest].
  - destruct Hp as [-> | []]. exact Hx.
  - change (join sep (q :: q' :: rest))
      with (q ++ sep ++ join sep (q' :: rest)).
    destruct Hp as [-> | Hp].
    + apply in_or_app. left; exact Hx.
    + apply in_or_app. right. apply in_or_app. right. apply IH; assumption.
Qed.

Lemma startswith_app_r (old s rest : text) :
  startswith old s = true -> startswith old (s ++ rest) = true.
Proof.
  revert s; induction old as [| a old IH]; intros s H; [reflexivity |].
  destruct s as [| c s]; [discriminate |].
  cbn [startswith app] in H |- *.
  apply andb_true_iff in H as [Hac Hrest].
  rewrite Hac, (IH s Hrest). reflexivity.
Qed.

(** The first piece of a split is a prefix of the text. *)
Lemma first_piece_is_prefix (a : ascii) (sep s p : text) (ps : list text) :
  split_from (a :: sep) 0 s = p :: ps -> exists rest, s = p ++ rest.
Proof.
  intros H. pose proof (join_split_from a sep s) as Hjoin.
  rewrite H in Hjoin. destruct ps as [| q ps].
  - exists []. rewrite app_nil_r. symmetry. exact Hjoin.
  - exists ((a :: sep) ++ join (a :: sep) (q :: ps)).
    symmetry. exact Hjoin.
Qed.

(** No piece of a split holds the separator. *)
Lemma split_pieces_hold_no_separator (a : ascii) (sep s : text) :
  Forall (fun p => occurs (a :: sep) p = false) (split_from (a :: sep) 0 s).
Proof.
  remember (List.length s) as n eqn:Hn.
  assert (Hle : List.length s <= n) by lia. clear Hn.
  revert s Hle; induction n as [| n IH]; intros s Hle.
  - destruct s; [| cbn [List.length] in Hle; lia].
    repeat constructor.
  - destruct s as [| c s]; [repeat constructor |].
    cbn [List.length] in Hle. cbn [split_from].
    destruct (startswith (a :: sep) (c :: s)) eqn:E.
    + apply startswith_prefix in E as [rest E].
      cbn [app] in E. injection E as -> ->.
      replace (List.length (a :: sep) - 1) with (List.length sep)
        by (cbn [List.length]; lia).
      rewrite split_from_skip. constructor; [reflexivity |].
      apply IH. rewrite length_app in Hle. lia.
    + pose proof (IH s ltac:(lia)) as Hs.
      destruct (split_from (a :: sep) 0 s) as [| p ps] eqn:Esplit;
        [exfalso; exact (split_from_nonempty _ _ _ Esplit) |].
      cbn [cons_head]. inversion Hs as [| ? ? Hp Hps]; subst.
      constructor; [| exact Hps].
      cbn [occurs]. rewrite Hp, orb_false_r.
      destruct (startswith (a :: sep) (c :: p)) eqn:Ep; [| reflexivity].
      destruct (first_piece_is_prefix _ _ _ _ _ Esplit) as [rest ->].
      apply (startswith_app_r _ _ rest) in Ep.
      change ((c :: p) ++ rest) with (c :: p ++ rest) in Ep. congruence.
Qed.

(** X11. When the file cannot be opened the call raises [OSError].  When
    it can, for every configuration text: the file holds at least one
    line, then the scores string verbatim; the lines joined by [", "] are
    the text without its [Namespace(] markers and closing parentheses,
    and no line holds a closing parenthesis or the separator [", "], so
    that the lines are the pieces between the separators of that text. *)
Theorem report_lines_rebuild_configuration
        (fn str_args scores : text) (fs : filesystem) :
  (can_open_w fs fn = false ->
   write_text_report fn str_args scores fs = Raise OSError)
  /\ (can_open_w fs fn = true ->
      exists (fs' : filesystem) (lines : list text),
        write_text_report fn str_args scores fs = Ok fs'
        /\ lines <> []
        /\ content fs' fn =
           Some (flat_map (fun l => l ++ [newline]) lines ++ scores)
        /\ join (str ", ") lines =
           replace (str ")") (str "")
             (replace (str "Namespace(") (str "") str_args)
        /\ Forall (fun l => ~ In ")"%char l
                            /\ occurs (str ", ") l = false) lines).
Proof.
  split; [apply write_text_report_fails |]. intros Hopen.
  destruct (write_text_report_pieces fn str_args scores fs Hopen)
    as (fs' & Hrun & Hcontent).
  set (stripped := replace (str ")") (str "")
                     (replace (str "Namespace(") (str "") str_args)) in *.
  exists fs', (split_from (str ", ") 0 stripped).
  assert (Hjoin : join (str ", ") (split_from (str ", ") 0 stripped)
                  = stripped)
    by (change (str ", ") with (","%char :: str " ");
        apply join_split_from).
  split; [exact Hrun |]. split; [apply split_from_nonempty |].
  split; [exact Hcontent |]. split; [exact Hjoin |].
  pose proof (split_pieces_hold_no_separator ","%char (str " ") stripped)
    as Hfree.
  change (","%char :: str " ") with (str ", ") in Hfree.
  rewrite Forall_forall in Hfree.
  apply Forall_forall. intros l Hl. split; [| apply Hfree, Hl].
  intros Hin.
  pose proof (in_join (str ", ") _ l ")"%char Hl Hin) as Hstripped.
  rewrite Hjoin in Hstripped. unfold stripped in Hstripped.
  change (str ")") with [")"%char] in Hstripped.
  change (str "") with (@nil ascii) in Hstripped.
  rewrite replace_char_by_nothing in Hstripped.
  apply filter_In in Hstripped as [_ Hkeep].
  rewrite Ascii.eqb_refl in Hkeep. discriminate.
Qed.

End ReportMore.

(** ** The constructor and the batch loop *)

(** X13. Whenever the constructor returns a tagger, the statements
    before the branch went through and [rnn_type] is ['GRU'] or ['LSTM'];
    the tagger holds the layer the string names, fed with the output
    dimension of the embeddings; the linear layer is as wide as the CRF
    has states, [class_num + 2], and the start tag is the last state. *)
Theorem constructor_success
        (word_embeddings : result Z)
        (class_num batch_size rnn_hidden_dim : Z)
        (rnn_type : string) (gpu : Z) (t : Tagger.TaggerBiRNNCRF) :
  Tagger.init word_embeddings class_num batch_size rnn_hidden_dim
              rnn_type gpu = Ok t ->
  exists output_dim : Z,
    word_embeddings = Ok output_dim
    /\ ((rnn_type = "GRU"%string
         /\ Tagger.birnn t =
            Tagger.LayerBiGRU output_dim rnn_hidden_dim gpu)
        \/ (rnn_type = "LSTM"%string
            /\ Tagger.birnn t =
               Tagger.LayerBiLSTM output_dim rnn_hidden_dim gpu))
    /\ Tagger.crf_states_num t = (class_num + 2)%Z
    /\ Tagger.lin_layer_out_features t = Tagger.crf_states_num t
    /\ Tagger.crf_sos_idx t = (Tagger.crf_states_num t - 1)%Z.
Proof.
  unfold Tagger.init, Tagger.make_birnn_layer. intros Hrun.
  destruct word_embeddings as [output_dim | e]; [| discriminate].
  cbn [bind] in Hrun. exists output_dim. split; [reflexivity |].
  destruct (String.eqb_spec rnn_type "GRU") as [Hgru | _].
  - cbn [bind] in Hrun. injection Hrun as <-. cbn.
    repeat split; try lia. left. split; [exact Hgru | reflexivity].
  - destruct (String.eqb_spec rnn_type "LSTM") as [Hlstm | _];
      [| discriminate].
    cbn [bind] in Hrun. injection Hrun as <-. cbn.
    repeat split; try lia. right. split; [exact Hlstm | reflexivity].
Qed.

Section BatchLoopFacts.
Import Utils Tagger.

Variable Word : Type.
Variable Tag : Type.
Variable decode_sequence : list Word -> list nat.
Variable idx2item : nat -> Tag.

Local Abbreviation predict_tags_from_words :=
  (predict_tags_from_words decode_sequence idx2item).
Local Abbreviation tags_of := (tags_of decode_sequence idx2item).

(** X14. A batch size of 0 (given, or taken from the tagger when -1 is given)
    makes the call raise [ZeroDivisionError], whatever the input. *)
Theorem zero_batch_size_raises
        (self_batch_size : Z) (word_sequences : list (list Word))
        (batch_size : Z) :
  effective_batch_size self_batch_size batch_size = 0%Z ->
  predict_tags_from_words self_batch_size word_sequences batch_size =
  Raise ZeroDivisionError.
Proof.
  intros Hzero. unfold Tagger.predict_tags_from_words.
  fold (effective_batch_size self_batch_size batch_size).
  rewrite Hzero. reflexivity.
Qed.

Lemma floor_div_negative (a b : Z) :
  (0 <= a)%Z -> (b < 0)%Z -> (a / b <= 0)%Z.
Proof.
  intros Ha Hb.
  pose proof (Z.div_mod a b ltac:(lia)) as Hdm.
  pose proof (Z.mod_neg_bound a b Hb) as Hmod.
  nia.
Qed.

(** X15. A negative batch size never raises and never predicts: the number of
    sub-batches is not positive and the result is the empty list,
    whatever the input. *)
Theorem negative_batch_size_predicts_nothing
        (self_batch_size : Z) (word_sequences : list (list Word))
        (batch_size : Z) :
  (effective_batch_size self_batch_size batch_size < 0)%Z ->
  predict_tags_from_words self_batch_size word_sequences batch_size = Ok [].
Proof.
  intros Hneg. unfold Tagger.predict_tags_from_words.
  fold (effective_batch_size self_batch_size batch_size).
  set (size := effective_batch_size self_batch_size batch_size) in *.
  unfold floor_div. destruct (Z.eqb_spec size 0) as [E | _]; [lia |].
  cbn [bind]. unfold range.
  pose proof (floor_div_negative
                (Z.of_nat (List.length word_sequences)) size
                ltac:(lia) Hneg) as Hq.
  replace (Z.to_nat (Z.of_nat (List.length word_sequences) / size))
    with 0%nat by lia.
  reflexivity.
Qed.

(** The loop of [predict_tags_from_words] runs over [sub_batches]. *)
Lemma predict_through_sub_batches
      (self_batch_size : Z) (word_sequences : list (list Word))
      (batch_size : Z) :
  predict_tags_from_words self_batch_size word_sequences batch_size =
  (batches <- sub_batches self_batch_size word_sequences batch_size ;;
   fold_left
     (fun acc batch =>
        output_tag_sequences <- acc ;;
        curr_output_idx <- predict_idx_from_words decode_sequence batch ;;
        Ok (output_tag_sequences ++ idx2items idx2item curr_output_idx))
     batches (Ok [])).
Proof.
  unfold Tagger.predict_tags_from_words, sub_batches.
  destruct (floor_div _ _) as [batch_num | e]; [| reflexivity].
  cbn [bind].
  generalize (@Ok (list (list Tag)) []).
  induction (range batch_num) as [| n ns IH]; intros acc; [reflexivity |].
  cbn [map fold_left]. apply IH.
Qed.

Lemma concat_chunks (X : Type) (l : list X) (size count : nat) :
  List.concat
    (map (fun n => firstn size (skipn (n * size) l)) (seq 0 count)) =
  firstn (count * size) l.
Proof.
  induction count as [| count IH]; [reflexivity |].
  rewrite seq_S, map_app, concat_app, IH.
  cbn [Nat.add map List.concat]. rewrite app_nil_r.
  replace (S count * size) with (count * size + size) by lia.
  symmetry. apply firstn_plus.
Qed.

Lemma sub_batches_shape
        (self_batch_size : Z) (word_sequences : list (list Word))
        (batch_size : Z) :
  let size := effective_batch_size self_batch_size batch_size in
  let len := Z.of_nat (List.length word_sequences) in
  (0 < size)%Z ->
  (size <= len)%Z ->
  exists (full : list (list (list Word))) (last : list (list Word)),
    sub_batches self_batch_size word_sequences batch_size =
    Ok (full ++ [last])
    /\ List.concat (full ++ [last]) = word_sequences
    /\ Z.of_nat (List.length full) = (len / size - 1)%Z
    /\ Forall (fun batch => Z.of_nat (List.length batch) = size) full
    /\ (size <= Z.of_nat (List.length last) < 2 * size)%Z
    /\ Z.of_nat (List.length last) = (size + len mod size)%Z.
Proof.
  intros size len Hpos Hfull.
  set (L := List.length word_sequences) in *.
  set (B := Z.to_nat size).
  assert (HB : size = Z.of_nat B) by (unfold B; lia).
  assert (HB0 : B <> 0) by lia.
  assert (Hk : exists k', L / B = S k').
  { destruct (L / B) eqn:E; [| eexists; reflexivity].
    apply Nat.div_small_iff in E; [lia | exact HB0]. }
  destruct Hk as [k' Hk].
  pose proof (Nat.div_mod_eq L B) as Hdm. rewrite Hk in Hdm.
  pose proof (Nat.mod_upper_bound L B HB0) as Hmod.
  assert (Hquot : (len / size)%Z = Z.of_nat (S k'))
    by (unfold len; rewrite HB, <- Nat2Z.inj_div, Hk; reflexivity).
  assert (Hrem : (len mod size)%Z = Z.of_nat (L mod B))
    by (unfold len; rewrite HB, <- Nat2Z.inj_mod; reflexivity).
  exists (map (fun n => firstn B (skipn (n * B) word_sequences)) (seq 0 k')),
         (skipn (k' * B) word_sequences).
  split; [| split; [| split; [| split; [| split]]]].
  - unfold sub_batches.
    fold (effective_batch_size self_batch_size batch_size).
    fold size. fold L. fold len.
    unfold floor_div. destruct (Z.eqb_spec size 0) as [E | _]; [lia |].
    cbn [bind]. rewrite Hquot. unfold range.
    rewrite Nat2Z.id, seq_S, !map_app. cbn [Nat.add map]. f_equal. f_equal.
    + rewrite map_map. apply map_ext_in. intros n Hn. apply in_seq in Hn.
      destruct (Z.ltb_spec (Z.of_nat n) (Z.of_nat (S k') - 1)) as [_ | Hge];
        [| lia].
      replace (Z.of_nat n * size)%Z with (Z.of_nat (n * B)) by lia.
      replace ((Z.of_nat n + 1) * size)%Z with (Z.of_nat (n * B + B)) by lia.
      rewrite slice_in_range by (fold L; nia).
      replace (n * B + B - n * B) with B by lia. reflexivity.
    + destruct (Z.ltb_spec (Z.of_nat k') (Z.of_nat (S k') - 1)) as [Hlt | _];
        [lia |].
      replace (Z.of_nat k' * size)%Z with (Z.of_nat (k' * B)) by lia.
      unfold len. rewrite slice_in_range by (fold L; nia).
      rewrite firstn_all2 by (rewrite length_skipn; fold L; lia).
      reflexivity.
  - rewrite concat_app, concat_chunks. cbn [List.concat].
    rewrite app_nil_r. apply firstn_skipn.
  - rewrite length_map, length_seq. lia.
  - apply Forall_forall. intros batch Hbatch.
    apply in_map_iff in Hbatch as (n & <- & Hn). apply in_seq in Hn.
    rewrite length_firstn, length_skipn. fold L. nia.
  - rewrite length_skipn. fold L. nia.
  - rewrite length_skipn, Hrem. fold L. nia.
Qed.

Lemma predict_over_batches
      (batches : list (list (list Word))) (acc : list (list Tag)) :
  Forall (fun batch => batch <> []) batches ->
  fold_left
    (fun acc batch =>
       output_tag_sequences <- acc ;;
       curr_output_idx <- predict_idx_from_words decode_sequence batch ;;
       Ok (output_tag_sequences ++ idx2items idx2item curr_output_idx))
    batches (Ok acc) =
  Ok (acc ++ List.concat (map (map tags_of) batches)).
Proof.
  intros Hne. revert acc.
  induction Hne as [| batch batches Hbatch _ IH]; intros acc.
  - cbn. rewrite app_nil_r. reflexivity.
  - cbn [fold_left bind map List.concat].
    rewrite predict_idx_from_words_ok by exact Hbatch. cbn [bind].
    rewrite idx2items_decoded, IH, app_assoc. reflexivity.
Qed.

(** X17. With at least [batch_size] sequences, the sub-batches are consecutive
    slices that together are the input; all but the last hold exactly
    [batch_size] sequences, and the last one takes the remainder with
    them: it holds at least [batch_size] and fewer than [2 * batch_size]
    sequences.  The result of [predict_tags_from_words] is the
    concatenation of the tags predicted for each sub-batch. *)
Theorem last_sub_batch_takes_the_remainder
        (self_batch_size : Z) (word_sequences : list (list Word))
        (batch_size : Z) :
  let size := effective_batch_size self_batch_size batch_size in
  let len := Z.of_nat (List.length word_sequences) in
  (0 < size)%Z ->
  (size <= len)%Z ->
  exists (full : list (list (list Word))) (last : list (list Word)),
    sub_batches self_batch_size word_sequences batch_size =
    Ok (full ++ [last])
    /\ List.concat (full ++ [last]) = word_sequences
    /\ Z.of_nat (List.length full) = (len / size - 1)%Z
    /\ Forall (fun batch => Z.of_nat (List.length batch) = size) full
    /\ (size <= Z.of_nat (List.length last) < 2 * size)%Z
    /\ Z.of_nat (List.length last) = (size + len mod size)%Z
    /\ predict_tags_from_words self_batch_size word_sequences batch_size =
       Ok (List.concat (map (map tags_of) (full ++ [last]))).
Proof.
  intros size len Hpos Hfull.
  destruct (sub_batches_shape self_batch_size word_sequences batch_size
              Hpos Hfull)
    as (full & last & Hsub & Hcover & Hcount & Hsizes & Hlast & Hrem).
  exists full, last.
  repeat split; try assumption; try apply Hlast.
  rewrite predict_through_sub_batches, Hsub. cbn [bind].
  rewrite predict_over_batches; [reflexivity |].
  apply Forall_app. split.
  - apply Forall_forall. intros batch Hbatch.
    rewrite Forall_forall in Hsizes. specialize (Hsizes batch Hbatch).
    apply nonempty_of_length. lia.
  - constructor; [| constructor]. apply nonempty_of_length. lia.
Qed.

End BatchLoopFacts.

(** ** Instances of the further properties *)

Lemma counters_add_over_corpora_witness :
  let c := Evaluator.count_sequences exact_match tt
             ([[1]] ++ [[2; 3]]) ([[1]] ++ [[3]]) in
  let c1 := Evaluator.count_sequences exact_match tt [[1]] [[1]] in
  let c2 := Evaluator.count_sequences exact_match tt [[2; 3]] [[3]] in
  (Evaluator.TP c = Evaluator.TP c1 + Evaluator.TP c2
   /\ Evaluator.FN c = Evaluator.FN c1 + Evaluator.FN c2
   /\ Evaluator.FP c = Evaluator.FP c1 + Evaluator.FP c2)%Z.
Proof.
  apply (counters_add_over_corpora nat unit exact_match tt
           [[1]] [[2; 3]] [[1]] [[3]]).
  reflexivity.
Defined.

Lemma span_order_is_irrelevant_witness :
  Evaluator.count_sequences exact_match tt [[1; 2]] [[3; 1]] =
  Evaluator.count_sequences exact_match tt [[2; 1]] [[1; 3]].
Proof.
  apply (span_order_is_irrelevant nat unit exact_match tt
           [[1; 2]] [[2; 1]] [[3; 1]] [[1; 3]]).
  - constructor; [apply perm_swap | constructor].
  - constructor; [apply perm_swap | constructor].
Defined.

Lemma disjoint_corpora_score_zero_witness :
  exists F1 Precision Recall : Q,
    Evaluator.get_f1_from_components_sequences exact_match
      [[1; 2]; [3]] [[4]; [5; 6]] tt =
    Ok (F1, Precision, Recall,
        (0%Z,
         Z.of_nat (List.length (scored_pred [[1; 2]; [3]] [[4]; [5; 6]])),
         Z.of_nat (List.length (scored_gold [[1; 2]; [3]] [[4]; [5; 6]]))))
    /\ (F1 == 0)%Q /\ (Precision == 0)%Q /\ (Recall == 0)%Q.
Proof.
  apply (disjoint_corpora_score_zero nat unit exact_match tt
           [[1; 2]; [3]] [[4]; [5; 6]]).
  reflexivity.
Defined.

Lemma more_predictions_keep_true_positives_witness :
  (Evaluator.TP (Evaluator.count_sequences exact_match tt [[1; 2]]%nat [[1]]%nat)
   <= Evaluator.TP
        (Evaluator.count_sequences exact_match tt [[1; 2]]%nat [[1; 2; 7]]%nat)
   /\ Evaluator.FN
        (Evaluator.count_sequences exact_match tt [[1; 2]]%nat [[1; 2; 7]]%nat)
      <= Evaluator.FN
           (Evaluator.count_sequences exact_match tt [[1; 2]]%nat [[1]]%nat))%Z.
Proof.
  apply (more_predictions_keep_true_positives nat unit exact_match tt
           [[1; 2]] [[1]] [[1; 2; 7]]).
  constructor; [| constructor].
  intros x Hx. destruct Hx as [<- | []]. left; reflexivity.
Defined.

Lemma tagging_scored_against_itself_witness :
  exists F1 Precision Recall : Q,
    get_f1_from_words exact_match
      (fun tag_sequences : list (list nat) => tag_sequences) tt
      [[1; 2]; [3]] [[1; 2]; [3]] None =
    Ok (F1, Precision, Recall,
        (Z.of_nat (List.length (List.concat [[1; 2]; [3]])), 0%Z, 0%Z)).
Proof.
  apply (tagging_scored_against_itself nat nat unit exact_match
           (fun tag_sequences => tag_sequences) tt [[1; 2]; [3]] None).
  reflexivity.
Defined.

Lemma zero_batch_size_raises_witness :
  Tagger.predict_tags_from_words (fun ws : list nat => ws)
    (fun i : nat => i) 0 [[1; 2]; [3]] (-1) = Raise ZeroDivisionError.
Proof.
  apply (zero_batch_size_raises nat nat (fun ws => ws) (fun i => i)
           0%Z [[1; 2]; [3]] (-1)%Z).
  reflexivity.
Defined.

Lemma negative_batch_size_predicts_nothing_witness :
  Tagger.predict_tags_from_words (fun ws : list nat => ws)
    (fun i : nat => i) 10 [[1; 2]; [3]] (-2) = Ok [].
Proof.
  apply (negative_batch_size_predicts_nothing nat nat (fun ws => ws)
           (fun i => i) 10%Z [[1; 2]; [3]] (-2)%Z).
  reflexivity.
Defined.

Lemma last_sub_batch_takes_the_remainder_witness :
  exists (full : list (list (list nat))) (last : list (list nat)),
    sub_batches 2 [[1; 2]; [3]; [4; 5; 6]] (-1) = Ok (full ++ [last])
    /\ List.concat (full ++ [last]) = [[1; 2]; [3]; [4; 5; 6]]
    /\ Z.of_nat (List.length full) = (3 / 2 - 1)%Z
    /\ Forall (fun batch => Z.of_nat (List.length batch) = 2%Z) full
    /\ (2 <= Z.of_nat (List.length last) < 2 * 2)%Z
    /\ Z.of_nat (List.length last) = (2 + 3 mod 2)%Z
    /\ Tagger.predict_tags_from_words (fun ws : list nat => ws)
         (fun i : nat => i) 2 [[1; 2]; [3]; [4; 5; 6]] (-1) =
       Ok (List.concat
             (map (map (Tagger.tags_of (fun ws : list nat => ws)
                                       (fun i : nat => i)))
                  (full ++ [last]))).
Proof.
  apply (last_sub_batch_takes_the_remainder nat nat (fun ws => ws)
           (fun i => i) 2%Z [[1; 2]; [3]; [4; 5; 6]] (-1)%Z).
  - reflexivity.
  - cbn. lia.
Defined.

Lemma constructor_success_witness :
  exists output_dim : Z,
    Ok 300%Z = Ok output_dim
    /\ (("LSTM"%string = "GRU"%string
         /\ Tagger.LayerBiLSTM 300 100 (-1) =
            Tagger.LayerBiGRU output_dim 100 (-1))
        \/ ("LSTM"%string = "LSTM"%string
            /\ Tagger.LayerBiLSTM 300 100 (-1) =
               Tagger.LayerBiLSTM output_dim 100 (-1)))
    /\ (9 + 2)%Z = (9 + 2)%Z
    /\ (9 + 2)%Z = (9 + 2)%Z
    /\ (9 + 1)%Z = (9 + 2 - 1)%Z.
Proof.
  apply (constructor_success (Ok 300%Z) 9 10 100 "LSTM" (-1)
           {| Tagger.class_num := 9;
              Tagger.batch_size := 10;
              Tagger.rnn_hidden_dim := 100;
              Tagger.rnn_type := "LSTM";
              Tagger.gpu := -1;
              Tagger.birnn := Tagger.LayerBiLSTM 300 100 (-1);
              Tagger.lin_layer_out_features := 9 + 2;
              Tagger.crf_states_num := 9 + 2;
              Tagger.crf_sos_idx := 9 + 1 |}).
  reflexivity.
Defined.
